(** * Lighthouse CLI runner: a shallow embedding of the batch script

    The script reads a list of URLs, normalises it, acquires a Chrome
    session, runs the external auditor once per URL in chunks, closes the
    browser and prints a summary.  The definitions below follow the script
    function by function; the theorems at the end state what it does.

    Conventions.
    - A JavaScript string is its sequence of UTF-16 code units.  The model
      covers the code units below 256, one [ascii] each.
    - A JavaScript number that the script only uses as an integer is a [Z].
    - Console output is not modelled, except where an event of the trace
      stands for a log line. *)

From Stdlib Require Import String Ascii List ZArith NArith Bool Lia.
Import ListNotations.
Local Open Scope string_scope.
Local Open Scope Z_scope.

(** ** JavaScript primitives used by the script *)

Module JS.

(** [s.startsWith(p)]. *)
Fixpoint startsWith (p s : string) : bool :=
  match p, s with
  | EmptyString, _ => true
  | String _ _, EmptyString => false
  | String a p', String b s' => Ascii.eqb a b && startsWith p' s'
  end.

(** Removal of the first [n] code units, the tail of a string after a
    matched prefix of length [n]. *)
Fixpoint dropFirst (n : nat) (s : string) : string :=
  match n, s with
  | O, _ => s
  | S _, EmptyString => EmptyString
  | S n', String _ s' => dropFirst n' s'
  end.

(** [s.substring(0, n)]. *)
Fixpoint substring0 (n : nat) (s : string) : string :=
  match n, s with
  | O, _ => EmptyString
  | S _, EmptyString => EmptyString
  | S n', String c s' => String c (substring0 n' s')
  end.

Definition codeUnit (c : ascii) : N := N_of_ascii c.

Definition inRange (lo hi : N) (c : ascii) : bool :=
  ((lo <=? codeUnit c) && (codeUnit c <=? hi))%N.

(** The class [\d]. *)
Definition isDigit (c : ascii) : bool := inRange 48 57 c.

(** The class [[a-zA-Z0-9]]. *)
Definition isAlnum (c : ascii) : bool :=
  inRange 97 122 c || inRange 65 90 c || isDigit c.

(** White space skipped by [parseInt]: TAB, LF, VT, FF, CR, SP and NBSP
    (the white space and line terminator code units below 256). *)
Definition isWhiteSpace (c : ascii) : bool :=
  inRange 9 13 c || (codeUnit c =? 32)%N || (codeUnit c =? 160)%N.

Fixpoint trimStart (s : string) : string :=
  match s with
  | String c s' => if isWhiteSpace c then trimStart s' else s
  | EmptyString => EmptyString
  end.

(** The longest run of decimal digits at the head of [s], read as a
    number; [None] when [s] does not start with a digit. *)
Fixpoint digitsValue (acc : option Z) (s : string) : option Z :=
  match s with
  | String c s' =>
      if isDigit c
      then digitsValue
             (Some (10 * match acc with Some a => a | None => 0 end
                    + Z.of_N (codeUnit c - 48)))
             s'
      else acc
  | EmptyString => acc
  end.

(** [parseInt(s, 10)]; [None] is NaN.  The result is the exact integer:
    beyond 2^53 JavaScript rounds it (and overflows to Infinity), which no
    use of the value in the script can tell apart for a list shorter than
    2^53. *)
Definition parseInt10 (s : string) : option Z :=
  match trimStart s with
  | String "-" r => option_map Z.opp (digitsValue None r)
  | String "+" r => digitsValue None r
  | r => digitsValue None r
  end.

(** [x || d] for a number [x]: NaN, 0 and -0 are falsy. *)
Definition numberOr (x : option Z) (d : Z) : Z :=
  match x with
  | Some n => if n =? 0 then d else n
  | None => d
  end.

(** An index argument of [slice], made relative to the length. *)
Definition relativeIndex (len rel : Z) : Z :=
  if rel <? 0 then Z.max (len + rel) 0 else Z.min rel len.

(** [l.slice(start, stop)], negative arguments counting from the end. *)
Definition slice {A : Type} (l : list A) (start stop : Z) : list A :=
  let len := Z.of_nat (List.length l) in
  let k := relativeIndex len start in
  let final := relativeIndex len stop in
  firstn (Z.to_nat (final - k)) (skipn (Z.to_nat k) l).

(** [[...new Set(l)]]: the distinct elements of [l], each at the place of
    its first occurrence. *)
Fixpoint setSpreadFrom (seen l : list string) : list string :=
  match l with
  | [] => []
  | x :: l' =>
      if existsb (String.eqb x) seen then setSpreadFrom seen l'
      else x :: setSpreadFrom (x :: seen) l'
  end.

Definition setSpread (l : list string) : list string := setSpreadFrom [] l.

(** The values the script tests for truth. A promise is an object. *)
Inductive Value : Type :=
| VBoolean (b : bool)
| VPromise (settlesTo : bool).

(** ToBoolean. *)
Definition truthy (v : Value) : bool :=
  match v with
  | VBoolean b => b
  | VPromise _ => true
  end.

(** How the evaluation of a piece of the script ends: with a value, with
    a thrown error (its [message]), or with the process gone after
    [process.exit(code)]. *)
Inductive Completion (A : Type) : Type :=
| Normal (a : A)
| Throw (message : string)
| Exit (code : Z).

Arguments Normal {A} a.
Arguments Throw {A} message.
Arguments Exit {A} code.

End JS.

Import JS.

(** ** [path.resolve] on a POSIX host *)

Module Path.

(** The pieces of [s] between slashes; [cur] is the piece being read. *)
Fixpoint segments (cur s : string) : list string :=
  match s with
  | EmptyString => [cur]
  | String c s' =>
      if Ascii.eqb c "/" then cur :: segments EmptyString s'
      else segments (cur ++ String c EmptyString) s'
  end.

(** One step of the normalisation of an absolute path; [stack] holds the
    directories kept so far, innermost first. *)
Definition pushSegment (stack : list string) (seg : string) : list string :=
  if String.eqb seg "" || String.eqb seg "." then stack
  else if String.eqb seg ".." then tl stack
  else seg :: stack.

Definition normalizeAbsolute (s : string) : string :=
  "/" ++ String.concat "/" (rev (fold_left pushSegment (segments "" s) [])).

(** The arguments are read from the right until one is absolute; the
    working directory [cwd] is used when none is. *)
Fixpoint joinFromRight (cwd : string) (revPaths : list string) (acc : string)
  : string :=
  match revPaths with
  | [] => cwd ++ "/" ++ acc
  | p :: rest =>
      if String.eqb p "" then joinFromRight cwd rest acc
      else if startsWith "/" p then p ++ "/" ++ acc
      else joinFromRight cwd rest (p ++ "/" ++ acc)
  end.

Definition resolve (cwd : string) (paths : list string) : string :=
  normalizeAbsolute (joinFromRight cwd (rev paths) "").

End Path.

(** ** URL set builder (lines 103-110) *)

(** The arrow function passed to [map]. *)
Definition normalizeUrl (url : string) : string :=
  if negb (startsWith "http://" url) && negb (startsWith "https://" url)
  then "https://" ++ url
  else url.

(** [urlsToAudit = [...new Set(urlsToAudit)].map(...)]: the duplicates are
    removed from the list as given, then every element is normalised. *)
Definition urlsToAudit (given : list string) : list string :=
  map normalizeUrl (setSpread given).

(** ** Window size (line 336) *)

(** [parseInt(values.concurrent, 10) || 3]. *)
Definition concurrentAudits (concurrent : string) : Z :=
  numberOr (parseInt10 concurrent) 3.

(** ** Output naming (lines 197-202) *)

(** [.replace(/^https?:\/\//, '')]. *)
Definition stripScheme (url : string) : string :=
  if startsWith "https://" url then dropFirst 8 url
  else if startsWith "http://" url then dropFirst 7 url
  else url.

(** [.replace(/[^a-zA-Z0-9]/g, '_')]. *)
Fixpoint replaceNonAlnum (s : string) : string :=
  match s with
  | EmptyString => EmptyString
  | String c s' => String (if isAlnum c then c else "_"%char) (replaceNonAlnum s')
  end.

Definition sanitizedUrl (url : string) : string :=
  substring0 100 (replaceNonAlnum (stripScheme url)).

(** Whether every code unit of [s] is a letter, a digit or the
    placeholder. *)
Fixpoint allNameChars (s : string) : bool :=
  match s with
  | EmptyString => true
  | String c s' => (isAlnum c || Ascii.eqb c "_") && allNameChars s'
  end.

(** ** The host: file system, subprocesses and the browser library *)

(** What a call into the host gives back. *)
Inductive HostResult (A : Type) : Type :=
| Returned (a : A)
| Raised (message : string).

Arguments Returned {A} a.
Arguments Raised {A} message.

(** The object returned by [spawnSync]; [stderr] is [stderr.toString()]. *)
Record SpawnResult : Type := {
  exitCode : Z;
  stderr : string
}.

(** Everything outside the script, over a world [W] that the calls may
    change.  A browser session is known by the endpoint it reports
    ([browser.wsEndpoint()]).  [fileExists p w] is what the promise of
    [Bun.file(p).exists()] settles to. *)
Record Host (W : Type) : Type := {
  cwd : string;
  platform : string;
  existsSync : string -> W -> bool;
  fileExists : string -> W -> bool;
  setChromePath : string -> W -> W;
  spawnSync : list string -> string -> W -> HostResult SpawnResult * W;
  connect : string -> W -> HostResult string * W;
  launch : string -> W -> HostResult string * W;
  version : string -> W -> HostResult string * W;
  close : string -> W -> HostResult unit * W
}.

Arguments cwd {W} h.
Arguments platform {W} h.
Arguments existsSync {W} h.
Arguments fileExists {W} h.
Arguments setChromePath {W} h.
Arguments spawnSync {W} h.
Arguments connect {W} h.
Arguments launch {W} h.
Arguments version {W} h.
Arguments close {W} h.

(** The parsed command line ([values]); an absent option is [None]. *)
Record Values : Type := {
  outputDirOption : string;
  format : string;
  chromeEndpoint : option string;
  categories : option string;
  concurrent : string
}.

(** [{ url, success, outputPath }] or [{ url, success, error }]; a
    property that the object does not have is [None]. *)
Record AuditResult : Type := {
  result_url : string;
  result_success : bool;
  result_outputPath : option string;
  result_error : option string
}.

Definition succeeded (url outputPath : string) : AuditResult :=
  {| result_url := url; result_success := true;
     result_outputPath := Some outputPath; result_error := None |}.

Definition failed (url error : string) : AuditResult :=
  {| result_url := url; result_success := false;
     result_outputPath := None; result_error := Some error |}.

(** What the run does that can be seen from outside, in order.
    [EvBatch] stands for the log line of line 266 and carries the chunk
    itself, [EvSummary] for the summary block, [EvFatal] and
    [EvCloseError] for the two error lines of the handlers. *)
Inductive Event : Type :=
| EvConnect (endpoint : string)
| EvLaunch (executablePath : string)
| EvVersion
| EvBatch (chunk : list string)
| EvSpawn (cmd : list string)
| EvClose
| EvSummary (total successCount failCount : nat)
            (failedUrls : list (string * string))
| EvFatal (message : string)
| EvCloseError (message : string).

(** The state of a run: the world, the variable [browser] of
    [runLighthouse] and the events so far (latest last). *)
Record State (W : Type) : Type := {
  world : W;
  browser : option string;
  trace : list Event
}.

Arguments world {W} s.
Arguments browser {W} s.
Arguments trace {W} s.

(** ** Script computations

    A computation maps a state to its completion and the state left
    behind; [None] means that the fuel of a loop ran out before the
    computation completed. *)

Definition M (W A : Type) : Type := State W -> option (Completion A * State W).

Section Computations.

Context {W : Type}.

Definition ret {A : Type} (a : A) : M W A := fun s => Some (Normal a, s).

Definition throw {A : Type} (message : string) : M W A :=
  fun s => Some (Throw message, s).

(** [process.exit(code)]. *)
Definition exit {A : Type} (code : Z) : M W A := fun s => Some (Exit code, s).

Definition bind {A B : Type} (c : M W A) (k : A -> M W B) : M W B :=
  fun s =>
    match c s with
    | None => None
    | Some (Normal a, s1) => k a s1
    | Some (Throw m, s1) => Some (Throw m, s1)
    | Some (Exit code, s1) => Some (Exit code, s1)
    end.

Definition emit (e : Event) : M W unit :=
  fun s => Some (Normal tt,
                 {| world := world s; browser := browser s;
                    trace := trace s ++ [e] |}).

(** A call into the host: its event is recorded, the world is replaced,
    and a raised error is thrown. *)
Definition call {A : Type} (e : Event) (f : W -> HostResult A * W) : M W A :=
  fun s =>
    let (r, w) := f (world s) in
    let s1 := {| world := w; browser := browser s; trace := trace s ++ [e] |} in
    match r with
    | Returned a => Some (Normal a, s1)
    | Raised m => Some (Throw m, s1)
    end.

Definition readWorld {A : Type} (f : W -> A) : M W A :=
  fun s => Some (Normal (f (world s)), s).

Definition writeWorld (f : W -> W) : M W unit :=
  fun s => Some (Normal tt,
                 {| world := f (world s); browser := browser s;
                    trace := trace s |}).

Definition getBrowser : M W (option string) :=
  fun s => Some (Normal (browser s), s).

Definition setBrowser (b : string) : M W unit :=
  fun s => Some (Normal tt,
                 {| world := world s; browser := Some b; trace := trace s |}).

(** [try { body } catch (error) { handler(error.message) }]. *)
Definition tryCatch {A : Type} (body : M W A) (handler : string -> M W A)
  : M W A :=
  fun s =>
    match body s with
    | Some (Throw m, s1) => handler m s1
    | other => other
    end.

(** The [finally] block [fin] after a completion [c] of what precedes it:
    it is not run once the process is gone, and an abrupt completion of
    [fin] replaces [c]. *)
Definition andFinally {A : Type} (c : Completion A) (fin : M W unit)
  : M W A :=
  fun s =>
    match c with
    | Exit code => Some (Exit code, s)
    | _ =>
        match fin s with
        | None => None
        | Some (Normal _, s1) => Some (c, s1)
        | Some (Throw m, s1) => Some (Throw m, s1)
        | Some (Exit code, s1) => Some (Exit code, s1)
        end
    end.

(** [try { body } catch (error) { handler(error.message) } finally { fin }]. *)
Definition tryCatchFinally {A : Type} (body : M W A)
  (handler : string -> M W A) (fin : M W unit) : M W A :=
  fun s =>
    match tryCatch body handler s with
    | None => None
    | Some (c, s1) => andFinally c fin s1
    end.

End Computations.

Declare Scope script_scope.
Delimit Scope script_scope with script.
Notation "x <- c ;; k" := (bind c (fun x => k))
  (at level 61, c at next level, right associativity) : script_scope.
Notation "c ;; k" := (bind c (fun _ => k))
  (at level 61, right associativity) : script_scope.
Local Open Scope script_scope.

(** ** Audit invoker (lines 192-258) *)

(** The longest run of digits at the head of [s], and what follows it. *)
Fixpoint spanDigits (s : string) : string * string :=
  match s with
  | String c s' =>
      if isDigit c
      then let (d, r) := spanDigits s' in (String c d, r)
      else (EmptyString, s)
  | EmptyString => (EmptyString, EmptyString)
  end.

(** Group 1 of the first match of [/:(\d+)\//] in [s]. *)
Fixpoint portMatch (s : string) : option string :=
  match s with
  | EmptyString => None
  | String c s' =>
      if Ascii.eqb c ":" then
        match spanDigits s' with
        | (String d ds, String "/" _) => Some (String d ds)
        | _ => portMatch s'
        end
      else portMatch s'
  end.

(** A string in a condition: absent and empty are falsy. *)
Definition given (o : option string) : option string :=
  match o with
  | Some EmptyString => None
  | other => other
  end.

(** A promise that has settled. *)
Inductive Settled (A : Type) : Type :=
| Fulfilled (a : A)
| Rejected (message : string).

Arguments Fulfilled {A} a.
Arguments Rejected {A} message.

(** [await Promise.all(promises)]: the values in the order of the
    promises, or the first rejection. *)
Fixpoint promiseAll {A : Type} (promises : list (Settled A))
  : Completion (list A) :=
  match promises with
  | [] => Normal []
  | Fulfilled a :: rest =>
      match promiseAll rest with
      | Normal l => Normal (a :: l)
      | other => other
      end
  | Rejected m :: _ => Throw m
  end.

Section Script.

Context {W : Type}.
Variable h : Host W.
Variable values : Values.

(** [const outputDir = resolve(values["output-dir"])] (line 120). *)
Definition outputDir : string :=
  Path.resolve (cwd h) [outputDirOption values].

(** [resolve(outputDir, `${sanitizedUrl}.${values.format}`)]. *)
Definition outputPathOf (url : string) : string :=
  Path.resolve (cwd h) [outputDir; sanitizedUrl url ++ "." ++ format values].

Definition portOf (wsEndpoint : string) : string :=
  match portMatch wsEndpoint with
  | Some port => port
  | None => "9222"
  end.

Definition lighthouseArgs (url wsEndpoint : string) : list string :=
  [ url;
    "--output=" ++ format values;
    "--output-path=" ++ outputPathOf url;
    "--port=" ++ portOf wsEndpoint;
    "--throttling-method=provided";
    "--chrome-flags=--headless" ]
  ++ match given (categories values) with
     | Some cats => ["--only-categories=" ++ cats]
     | None => []
     end.

Definition lighthouseCmd (url wsEndpoint : string) : list string :=
  Path.resolve (cwd h) ["/usr/local/bin/lighthouse"]
  :: lighthouseArgs url wsEndpoint.

(** [Bun.file(path).exists()]: a promise, which line 246 does not await
    (line 84 awaits the same call). *)
Definition bunFileExists (path : string) : M W Value :=
  readWorld (fun w => VPromise (fileExists h path w)).

Definition runLighthouseForUrl (url wsEndpoint : string) : M W AuditResult :=
  tryCatch
    (let cmd := lighthouseCmd url wsEndpoint in
     result <- call (EvSpawn cmd) (spawnSync h cmd wsEndpoint) ;;
     if negb (exitCode result =? 0)
     then ret (failed url (stderr result))
     else
       created <- bunFileExists (outputPathOf url) ;;
       if negb (truthy created)
       then ret (failed url "Output file not created")
       else ret (succeeded url (outputPathOf url)))
    (fun message => ret (failed url message)).

(** ** Batch runner (lines 261-275) *)

(** [chunk.map(x => f(x))] for an async [f] without [await]: every call
    runs to its end in turn and leaves a settled promise. *)
Fixpoint mapAsync {A B : Type} (f : A -> M W B) (xs : list A)
  : M W (list (Settled B)) :=
  match xs with
  | [] => ret []
  | x :: xs' =>
      fun s =>
        match f x s with
        | None => None
        | Some (Exit code, s1) => Some (Exit code, s1)
        | Some (Normal b, s1) =>
            (rest <- mapAsync f xs' ;; ret (Fulfilled b :: rest)) s1
        | Some (Throw m, s1) =>
            (rest <- mapAsync f xs' ;; ret (Rejected m :: rest)) s1
        end
  end.

(** [await Promise.all(promises)]. *)
Definition awaitAll {A : Type} (promises : list (Settled A)) : M W (list A) :=
  fun s => Some (promiseAll promises, s).

(** The [for] loop from index [i] on, with the results so far.  Every
    iteration uses one unit of [fuel]. *)
Fixpoint chunkLoop (fuel : nat) (urls : list string) (chunkSize : Z)
  (wsEndpoint : string) (i : Z) (results : list AuditResult)
  : M W (list AuditResult) :=
  match fuel with
  | O => fun _ => None
  | S fuel' =>
      if i <? Z.of_nat (List.length urls) then
        let chunk := slice urls i (i + chunkSize) in
        emit (EvBatch chunk) ;;
        promises <- mapAsync (fun url => runLighthouseForUrl url wsEndpoint)
                             chunk ;;
        batchResults <- awaitAll promises ;;
        chunkLoop fuel' urls chunkSize wsEndpoint (i + chunkSize)
                  (results ++ batchResults)
      else ret results
  end.

Definition processUrlsInChunks (fuel : nat) (urls : list string)
  (chunkSize : Z) (wsEndpoint : string) : M W (list AuditResult) :=
  chunkLoop fuel urls chunkSize wsEndpoint 0 [].

(** ** The run (lines 161-189 and 278-385) *)

Definition chromePaths (platform : string) : list string :=
  if String.eqb platform "linux" then
    [ "/usr/bin/google-chrome"; "/usr/bin/chromium-browser";
      "/usr/bin/chromium" ]
  else if String.eqb platform "darwin" then
    [ "/Applications/Google Chrome.app/Contents/MacOS/Google Chrome";
      "/Applications/Chromium.app/Contents/MacOS/Chromium" ]
  else if String.eqb platform "win32" then
    [ "C:\Program Files\Google\Chrome\Application\chrome.exe";
      "C:\Program Files (x86)\Google\Chrome\Application\chrome.exe" ]
  else [].

Definition isLocalChromeAvailable : M W (option string) :=
  readWorld (fun w => find (fun path => existsSync h path w)
                           (chromePaths (platform h))).

(** [error.split('\n')[0]]. *)
Fixpoint firstLine (s : string) : string :=
  match s with
  | EmptyString => EmptyString
  | String c s' =>
      if Ascii.eqb c (ascii_of_nat 10) then EmptyString
      else String c (firstLine s')
  end.

Definition failedLine (r : AuditResult) : string * string :=
  (result_url r,
   firstLine match result_error r with Some e => e | None => "" end).

(** Lines 346-368. *)
Definition summary (results : list AuditResult) : Event :=
  let successCount := List.length (filter result_success results) in
  let failCount := (List.length results - successCount)%nat in
  EvSummary (List.length results) successCount failCount
    (if (0 <? failCount)%nat
     then map failedLine (filter (fun r => negb (result_success r)) results)
     else []).

(** Lines 285-329: the session is stored in [browser] as soon as the
    library returns it. *)
Definition acquire : M W string :=
  match given (chromeEndpoint values) with
  | Some endpoint =>
      b <- call (EvConnect endpoint) (connect h endpoint) ;;
      setBrowser b ;;
      ret b
  | None =>
      found <- isLocalChromeAvailable ;;
      match found with
      | None => exit 1
      | Some chromePath =>
          writeWorld (setChromePath h chromePath) ;;
          b <- call (EvLaunch chromePath) (launch h chromePath) ;;
          setBrowser b ;;
          ret b
      end
  end.

Definition closeBrowser (b : string) : M W unit :=
  call EvClose (close h b).

(** The [try] block of [runLighthouse]. *)
Definition tryBlock (fuel : nat) (urls : list string) : M W unit :=
  wsEndpoint <- acquire ;;
  call EvVersion (version h wsEndpoint) ;;
  let concurrentAudits := concurrentAudits (concurrent values) in
  results <- processUrlsInChunks fuel urls concurrentAudits wsEndpoint ;;
  closeBrowser wsEndpoint ;;
  emit (summary results).

(** Its [catch] block. *)
Definition catchBlock (message : string) : M W unit :=
  emit (EvFatal message) ;;
  exit 1.

(** Its [finally] block. *)
Definition finallyBlock : M W unit :=
  b <- getBrowser ;;
  match b with
  | Some b =>
      tryCatch (closeBrowser b) (fun message => emit (EvCloseError message))
  | None => ret tt
  end.

Definition runLighthouse (fuel : nat) (urls : list string) : M W unit :=
  tryCatchFinally (tryBlock fuel urls) catchBlock finallyBlock.

End Script.

(** The state in which a run starts. *)
Definition initial {W : Type} (w : W) : State W :=
  {| world := w; browser := None; trace := [] |}.

(** ** Observations on a trace *)

(** The chunks of the batches, in order. *)
Fixpoint windows (t : list Event) : list (list string) :=
  match t with
  | [] => []
  | EvBatch chunk :: t' => chunk :: windows t'
  | _ :: t' => windows t'
  end.

(** The number of calls of [browser.close()]. *)
Fixpoint closeCalls (t : list Event) : nat :=
  match t with
  | [] => O
  | EvClose :: t' => S (closeCalls t')
  | _ :: t' => closeCalls t'
  end.

(** Whether the summary is the event. *)
Definition isSummary (e : Event) : bool :=
  match e with
  | EvSummary _ _ _ _ => true
  | _ => false
  end.

(** ** The windows, as the description of the batch runner has them

    Consecutive pieces of [size] elements, the last one with what
    remains. *)
Fixpoint chunksOf {A : Type} (fuel size : nat) (l : list A) : list (list A) :=
  match fuel, l with
  | O, _ => []
  | _, [] => []
  | S fuel', _ => firstn size l :: chunksOf fuel' size (skipn size l)
  end.

(** ** Hosts for examples

    The world is the list of files written so far.  Every endpoint is
    reachable.  The auditor of [auditorWrites] exits with 0 and leaves its
    report at the path given with [--output-path=]; the one of
    [auditorSilent] exits with 0 and writes nothing; with [auditorMissing]
    the executable cannot be started. *)

Module Example.

Definition outputArg (cmd : list string) : option string :=
  option_map (dropFirst 14) (find (startsWith "--output-path=") cmd).

Definition auditorWrites (cmd : list string) (ws : string)
  (files : list string) : HostResult SpawnResult * list string :=
  (Returned {| exitCode := 0; stderr := "" |},
   match outputArg cmd with
   | Some p => p :: files
   | None => files
   end).

Definition auditorSilent (cmd : list string) (ws : string)
  (files : list string) : HostResult SpawnResult * list string :=
  (Returned {| exitCode := 0; stderr := "" |}, files).

Definition auditorMissing (cmd : list string) (ws : string)
  (files : list string) : HostResult SpawnResult * list string :=
  (Raised "ENOENT: no such file or directory, posix_spawn", files).

Definition closesFine (b : string) (files : list string) : HostResult unit :=
  Returned tt.

Definition closeFails (b : string) (files : list string) : HostResult unit :=
  Raised "Connection closed".

Definition host
  (auditor : list string -> string -> list string
             -> HostResult SpawnResult * list string)
  (closes : string -> list string -> HostResult unit)
  : Host (list string) :=
  {| cwd := "/work";
     platform := "linux";
     existsSync := fun p files => existsb (String.eqb p) files;
     fileExists := fun p files => existsb (String.eqb p) files;
     setChromePath := fun _ files => files;
     spawnSync := auditor;
     connect := fun ep files => (Returned ep, files);
     launch := fun _ files =>
       (Returned "ws://127.0.0.1:9222/devtools/browser/1", files);
     version := fun _ files => (Returned "Chrome/120", files);
     close := fun b files => (closes b files, files) |}.

Definition working : Host (list string) := host auditorWrites closesFine.
Definition silent : Host (list string) := host auditorSilent closesFine.
Definition noAuditor : Host (list string) := host auditorMissing closesFine.
Definition closeFailing : Host (list string) := host auditorWrites closeFails.

Definition values : Values :=
  {| outputDirOption := "./reports";
     format := "json";
     chromeEndpoint := Some "ws://chrome:3000/";
     categories := None;
     concurrent := "3" |}.

End Example.

(** ** URL file (lines 86-91) *)

(** The white space at the end of [s] removed. *)
Fixpoint trimEnd (s : string) : string :=
  match s with
  | EmptyString => EmptyString
  | String c s' =>
      match trimEnd s' with
      | EmptyString => if isWhiteSpace c then EmptyString else String c EmptyString
      | rest => String c rest
      end
  end.

(** [s.trim()]. *)
Definition trim (s : string) : string := trimEnd (trimStart s).

Definition newline : ascii := ascii_of_nat 10.

(** [content.split('\n')]: the pieces between line feeds, at least one. *)
Fixpoint splitLines (content : string) : list string :=
  match content with
  | EmptyString => [EmptyString]
  | String c rest =>
      if Ascii.eqb c newline then EmptyString :: splitLines rest
      else
        match splitLines rest with
        | line :: lines => String c line :: lines
        | [] => [String c EmptyString]
        end
  end.

(** [line && !line.startsWith('#')]. *)
Definition keptLine (line : string) : bool :=
  negb (String.eqb line "") && negb (startsWith "#" line).

Definition urlsFromFile (content : string) : list string :=
  filter keptLine (map trim (splitLines content)).

(** Whether [c] occurs in [s]. *)
Fixpoint occurs (c : ascii) (s : string) : bool :=
  match s with
  | EmptyString => false
  | String d s' => Ascii.eqb c d || occurs c s'
  end.

(** Whether a target carries a scheme. *)
Definition hasScheme (url : string) : bool :=
  startsWith "http://" url || startsWith "https://" url.

(** Whether every code unit of [s] is a decimal digit. *)
Fixpoint allDigits (s : string) : bool :=
  match s with
  | EmptyString => true
  | String c s' => isDigit c && allDigits s'
  end.

(** Whether no colon of [s] is followed, in [s], by a digit; a colon at
    the very end does not qualify. *)
Fixpoint noPortStart (s : string) : bool :=
  match s with
  | EmptyString => true
  | String c s' =>
      (if Ascii.eqb c ":" then
         match s' with
         | EmptyString => false
         | String d _ => negb (isDigit d)
         end
       else true)
      && noPortStart s'
  end.

(** Whether [seg] can stand in a normalised path: a name without
    slash, other than the empty name, [.] and [..]. *)
Definition cleanSegment (seg : string) : bool :=
  negb (String.eqb seg "") && negb (String.eqb seg ".")
  && negb (String.eqb seg "..") && negb (occurs "/" seg).

(** ** More observations on a trace *)

(** The commands given to [spawnSync], in order. *)
Fixpoint spawned (t : list Event) : list (list string) :=
  match t with
  | [] => []
  | EvSpawn cmd :: t' => cmd :: spawned t'
  | _ :: t' => spawned t'
  end.

(** The events of a batch: each window is announced, then audited. *)
Definition batchEvents (cmd : string -> list string)
  (wins : list (list string)) : list Event :=
  flat_map (fun win => EvBatch win :: map (fun url => EvSpawn (cmd url)) win)
           wins.

(** ** More hosts for examples

    Variations of the hosts of [Example]: an auditor that exits with 1, a
    remote endpoint that refuses the connection, a session that cannot
    tell its version, and a command line without [--chrome-endpoint]. *)

Module Scenario.

Definition auditorFails (cmd : list string) (ws : string)
  (files : list string) : HostResult SpawnResult * list string :=
  (Returned {| exitCode := 1;
               stderr := "Runtime error: NO_FCP" ++ String newline "at run" |},
   files).

Definition failing : Host (list string) :=
  Example.host auditorFails Example.closesFine.

Definition unreachable : Host (list string) :=
  {| cwd := cwd Example.working;
     platform := platform Example.working;
     existsSync := existsSync Example.working;
     fileExists := fileExists Example.working;
     setChromePath := setChromePath Example.working;
     spawnSync := spawnSync Example.working;
     connect := fun _ files => (Raised "connect ECONNREFUSED", files);
     launch := launch Example.working;
     version := version Example.working;
     close := close Example.working |}.

Definition mute : Host (list string) :=
  {| cwd := cwd Example.working;
     platform := platform Example.working;
     existsSync := existsSync Example.working;
     fileExists := fileExists Example.working;
     setChromePath := setChromePath Example.working;
     spawnSync := spawnSync Example.working;
     connect := connect Example.working;
     launch := launch Example.working;
     version := fun _ files => (Raised "Protocol error", files);
     close := close Example.working |}.

Definition localValues : Values :=
  {| outputDirOption := "./reports";
     format := "html";
     chromeEndpoint := None;
     categories := Some "performance";
     concurrent := "2" |}.

End Scenario.

(** ** The single-URL script ([index.ts])

    The older script audits one URL against a remote Chrome.  It shares
    the state and the events of the batch script; opening a page and
    creating a directory leave no event. *)

Module Single.

(** Its command line. *)
Record Values : Type := {
  url : option string;
  outputPathOption : string;
  format : string;
  chromeEndpoint : string;
  categories : option string;
  help : bool
}.

(** Its host. *)
Record Host (W : Type) : Type := {
  cwd : string;
  fileExists : string -> W -> bool;
  mkdir : string -> W -> HostResult unit * W;
  connect : string -> W -> HostResult string * W;
  version : string -> W -> HostResult string * W;
  newPage : string -> W -> HostResult unit * W;
  spawnSync : list string -> string -> W -> HostResult SpawnResult * W;
  close : string -> W -> HostResult unit * W
}.

Arguments cwd {W} h.
Arguments fileExists {W} h.
Arguments mkdir {W} h.
Arguments connect {W} h.
Arguments version {W} h.
Arguments newPage {W} h.
Arguments spawnSync {W} h.
Arguments close {W} h.

(** A call into the host that leaves no event. *)
Definition callQuiet {W A : Type} (f : W -> HostResult A * W) : M W A :=
  fun s =>
    let (r, w) := f (world s) in
    let s1 := {| world := w; browser := browser s; trace := trace s |} in
    match r with
    | Returned a => Some (Normal a, s1)
    | Raised m => Some (Throw m, s1)
    end.

(** What stands before the last slash of [s], when there is a slash. *)
Fixpoint beforeLastSlash (s : string) : option string :=
  match s with
  | EmptyString => None
  | String c s' =>
      match beforeLastSlash s' with
      | Some r => Some (String c r)
      | None => if Ascii.eqb c "/" then Some EmptyString else None
      end
  end.

(** [p.substring(0, p.lastIndexOf('/'))]: without a slash the index is
    -1 and the substring is empty. *)
Definition directoryOf (p : string) : string :=
  match beforeLastSlash p with
  | Some r => r
  | None => EmptyString
  end.

(** The endpoint written in the call of [puppeteer.connect] (line 68). *)
Definition endpoint : string := "wss://chrome-production-4846.up.railway.app".

Section Script.

Context {W : Type}.
Variable h : Host W.
Variable values : Values.

(** Line 47. *)
Definition outputPath : string :=
  Path.resolve (cwd h) [outputPathOption values].

(** Line 48. *)
Definition outputDir : string := directoryOf outputPath.

(** [Bun.file(path).exists()], a promise here too. *)
Definition bunFileExists (path : string) : M W Value :=
  readWorld (fun w => VPromise (fileExists h path w)).

(** Lines 50-57. *)
Definition ensureDirectory : M W unit :=
  tryCatch
    (match given (Some outputDir) with
     | None => ret tt
     | Some dir =>
         there <- bunFileExists dir ;;
         if negb (truthy there) then callQuiet (mkdir h dir) else ret tt
     end)
    (fun message => exit 1).

(** Lines 84-96. *)
Definition lighthouseArgs (target : string) : list string :=
  [ target;
    "--output=" ++ format values;
    "--output-path=" ++ outputPath;
    "--port=9222";
    "--throttling-method=provided";
    "--chrome-flags=--headless" ]
  ++ match given (categories values) with
     | Some cats => ["--only-categories=" ++ cats]
     | None => []
     end.

Definition lighthouseCmd (target : string) : list string :=
  Path.resolve (cwd h) ["/usr/local/bin/lighthouse"] :: lighthouseArgs target.

(** Lines 60-135, for the URL [target] of the command line. *)
Definition runLighthouse (target : string) : M W unit :=
  tryCatch
    (b <- call (EvConnect endpoint) (connect h endpoint) ;;
     call EvVersion (version h b) ;;
     callQuiet (newPage h b) ;;
     let cmd := lighthouseCmd target in
     result <- call (EvSpawn cmd) (spawnSync h cmd b) ;;
     if negb (exitCode result =? 0) then exit (exitCode result)
     else
       call EvClose (close h b) ;;
       created <- bunFileExists outputPath ;;
       if negb (truthy created) then exit 1 else ret tt)
    (fun message => exit 1).

(** The script from the help test on (lines 28-57 and 138). *)
Definition main : M W unit :=
  match help values, given (url values) with
  | true, _ => exit 0
  | false, None => exit 1
  | false, Some target => ensureDirectory ;; runLighthouse target
  end.

End Script.

End Single.

(** Hosts and a command line for examples of the single-URL script: the
    auditor exits with [code] and writes nothing. *)

Module SingleExample.

Definition host (code : Z) : Single.Host (list string) :=
  {| Single.cwd := "/work";
     Single.fileExists := fun p files => existsb (String.eqb p) files;
     Single.mkdir := fun p files => (Returned tt, p :: files);
     Single.connect := fun ep files => (Returned ep, files);
     Single.version := fun _ files => (Returned "Chrome/120", files);
     Single.newPage := fun _ files => (Returned tt, files);
     Single.spawnSync := fun _ _ files =>
       (Returned {| exitCode := code; stderr := "" |}, files);
     Single.close := fun _ files => (Returned tt, files) |}.

Definition values : Single.Values :=
  {| Single.url := Some "https://a.com";
     Single.outputPathOption := "out/report.json";
     Single.format := "json";
     Single.chromeEndpoint := "ws://localhost:3000";
     Single.categories := None;
     Single.help := false |}.

End SingleExample.

(** * Properties *)

(** ** Strings *)

Section Strings.

Lemma startsWith_append (p rest : string) : startsWith p (p ++ rest) = true.
Proof.
  induction p as [|a p IH]; simpl.
  - reflexivity.
  - rewrite Ascii.eqb_refl. exact IH.
Qed.

Lemma startsWith_split (p s : string) :
  startsWith p s = true -> exists rest, s = p ++ rest.
Proof.
  revert s. induction p as [|a p IH]; intros s Hs.
  - exists s. reflexivity.
  - destruct s as [|b s]; simpl in Hs; [discriminate|].
    apply andb_true_iff in Hs. destruct Hs as [Hab Hps].
    apply Ascii.eqb_eq in Hab. subst b.
    destruct (IH s Hps) as [rest ->].
    exists rest. reflexivity.
Qed.

Lemma startsWith_false (p s : string) :
  (forall rest, s <> p ++ rest) -> startsWith p s = false.
Proof.
  intros Hno. destruct (startsWith p s) eqn:E; [|reflexivity].
  destruct (startsWith_split p s E) as [rest ->].
  exfalso. exact (Hno rest eq_refl).
Qed.

Lemma dropFirst_append (p rest : string) :
  dropFirst (String.length p) (p ++ rest) = rest.
Proof.
  induction p as [|a p IH]; simpl.
  - destruct rest; reflexivity.
  - exact IH.
Qed.

Lemma substring0_length (n : nat) (s : string) :
  (String.length (substring0 n s) <= n)%nat.
Proof.
  revert s. induction n as [|n IH]; intros s; simpl.
  - lia.
  - destruct s as [|c s]; simpl; [lia|]. specialize (IH s). lia.
Qed.

Lemma replaceNonAlnum_chars (s : string) :
  allNameChars (replaceNonAlnum s) = true.
Proof.
  induction s as [|c s IH]; simpl; [reflexivity|].
  rewrite IH, andb_true_r.
  destruct (isAlnum c) eqn:E; [rewrite E|]; reflexivity.
Qed.

Lemma substring0_chars (n : nat) (s : string) :
  allNameChars s = true -> allNameChars (substring0 n s) = true.
Proof.
  revert s. induction n as [|n IH]; intros s Hs; simpl; [reflexivity|].
  destruct s as [|c s]; simpl in *; [reflexivity|].
  apply andb_true_iff in Hs. destruct Hs as [Hc Hs].
  rewrite Hc. simpl. exact (IH s Hs).
Qed.

End Strings.

(** ** URL set builder *)

Section UrlSet.

Lemma normalizeUrl_secure (rest : string) :
  normalizeUrl ("https://" ++ rest) = "https://" ++ rest.
Proof.
  unfold normalizeUrl.
  rewrite (startsWith_append "https://" rest), andb_false_r. reflexivity.
Qed.

Lemma normalizeUrl_plain (rest : string) :
  normalizeUrl ("http://" ++ rest) = "http://" ++ rest.
Proof.
  unfold normalizeUrl.
  rewrite (startsWith_append "http://" rest). reflexivity.
Qed.

Lemma normalizeUrl_bare (url : string) :
  (forall rest, url <> "http://" ++ rest) ->
  (forall rest, url <> "https://" ++ rest) ->
  normalizeUrl url = "https://" ++ url.
Proof.
  intros Hplain Hsecure. unfold normalizeUrl.
  rewrite (startsWith_false _ _ Hplain), (startsWith_false _ _ Hsecure).
  reflexivity.
Qed.

(** A second pass changes nothing. *)
Lemma normalizeUrl_idempotent (url : string) :
  normalizeUrl (normalizeUrl url) = normalizeUrl url.
Proof.
  destruct (negb (startsWith "http://" url) && negb (startsWith "https://" url))
    eqn:E.
  - assert (H : normalizeUrl url = "https://" ++ url)
      by (unfold normalizeUrl; rewrite E; reflexivity).
    rewrite H. apply normalizeUrl_secure.
  - assert (H : normalizeUrl url = url)
      by (unfold normalizeUrl; rewrite E; reflexivity).
    rewrite !H. reflexivity.
Qed.

(** C9. Scheme normalisation: a URL that starts with neither [http://]
    nor [https://] gets [https://] in front, a URL that starts with one of
    them is left as it is; ["example.com"] becomes
    ["https://example.com"] and ["http://example.com"] stays. *)
Theorem scheme_normalization (url : string) :
  ((forall rest, url <> "http://" ++ rest) /\
   (forall rest, url <> "https://" ++ rest) ->
   normalizeUrl url = "https://" ++ url) /\
  ((exists rest, url = "http://" ++ rest) \/
   (exists rest, url = "https://" ++ rest) ->
   normalizeUrl url = url) /\
  normalizeUrl "example.com" = "https://example.com" /\
  normalizeUrl "http://example.com" = "http://example.com".
Proof.
  split; [|split; [|split; reflexivity]].
  - intros [Hplain Hsecure]. apply normalizeUrl_bare; assumption.
  - intros [[rest ->] | [rest ->]].
    + apply normalizeUrl_plain.
    + apply normalizeUrl_secure.
Qed.

Lemma scheme_normalization_witness :
  normalizeUrl "shop.example" = "https://shop.example"
  /\ normalizeUrl "http://shop.example" = "http://shop.example".
Proof.
  split.
  - apply (proj1 (scheme_normalization "shop.example")).
    split; intros rest Heq; discriminate Heq.
  - apply (proj1 (proj2 (scheme_normalization "http://shop.example"))).
    left. exists "shop.example". reflexivity.
Defined.

(** C2, on the code: the duplicates are removed before the scheme is
    added, so the bare host and its [https://] form both stay and the
    list announced as unique holds the same target twice. *)
Theorem dedup_precedes_normalization :
  urlsToAudit ["a.com"; "a.com"; "https://a.com"]
  = ["https://a.com"; "https://a.com"]
  /\ List.length (urlsToAudit ["a.com"; "a.com"; "https://a.com"]) = 2%nat
  /\ ~ NoDup (urlsToAudit ["a.com"; "a.com"; "https://a.com"]).
Proof.
  split; [reflexivity|]. split; [reflexivity|].
  change (urlsToAudit ["a.com"; "a.com"; "https://a.com"])
    with ["https://a.com"; "https://a.com"].
  intros Hnd. inversion Hnd as [|x l Hnotin _]. apply Hnotin. left. reflexivity.
Qed.

End UrlSet.

(** ** Window size *)

Section WindowSize.

(** What is not a number, and zero, give the default. *)
Lemma concurrentAudits_default (concurrent : string) :
  parseInt10 concurrent = None \/ parseInt10 concurrent = Some 0 ->
  concurrentAudits concurrent = 3.
Proof.
  unfold concurrentAudits. intros [-> | ->]; reflexivity.
Qed.

(** Any other number is taken as it is, whatever its sign. *)
Lemma concurrentAudits_number (concurrent : string) (n : Z) :
  parseInt10 concurrent = Some n -> n <> 0 -> concurrentAudits concurrent = n.
Proof.
  unfold concurrentAudits. intros -> Hn. simpl.
  destruct (Z.eqb_spec n 0); [contradiction|reflexivity].
Qed.

(** C4, on the code: [--concurrent -2] is a number other than zero, so
    [||] keeps it and the window size of the run is -2, neither the
    default nor positive. *)
Theorem negative_concurrent_kept :
  parseInt10 "-2" = Some (-2)
  /\ concurrentAudits "-2" = -2
  /\ ~ (0 < concurrentAudits "-2")
  /\ concurrentAudits "0" = 3
  /\ concurrentAudits "many" = 3.
Proof.
  repeat split; try reflexivity. vm_compute. discriminate.
Qed.

End WindowSize.

(** ** Output naming *)

Section OutputNaming.

Lemma sanitizedUrl_length (url : string) :
  (String.length (sanitizedUrl url) <= 100)%nat.
Proof. apply substring0_length. Qed.

Lemma sanitizedUrl_chars (url : string) :
  allNameChars (sanitizedUrl url) = true.
Proof. apply substring0_chars, replaceNonAlnum_chars. Qed.

(** The scheme is not part of the name. *)
Lemma sanitizedUrl_scheme (rest : string) :
  sanitizedUrl ("http://" ++ rest) = sanitizedUrl ("https://" ++ rest).
Proof. reflexivity. Qed.

(** C5 as stated fails: two distinct targets of one run are given the
    same output path. *)
Lemma output_paths_collide :
  urlsToAudit ["http://a.com"; "https://a.com"]
  = ["http://a.com"; "https://a.com"]
  /\ "http://a.com" <> "https://a.com"
  /\ outputPathOf Example.working Example.values "http://a.com"
     = outputPathOf Example.working Example.values "https://a.com".
Proof.
  split; [reflexivity|]. split; [discriminate|reflexivity].
Qed.

(** Two URLs with the same sanitised name get the same path. *)
Lemma output_path_by_sanitized_name {W : Type} (h : Host W)
  (values : Values) (u v : string) :
  u = v \/ sanitizedUrl u = sanitizedUrl v ->
  outputPathOf h values u = outputPathOf h values v.
Proof.
  intros [-> | Hname]; [reflexivity|].
  unfold outputPathOf. rewrite Hname. reflexivity.
Qed.

End OutputNaming.

(** ** Audit invoker *)

Section Invoker.

Context {W : Type}.
Variable h : Host W.
Variable values : Values.

(** One invocation, whatever the host does: the call to the auditor is
    the only event, and the result is read off its outcome. *)
Lemma runLighthouseForUrl_outcome (url wsEndpoint : string) (s : State W) :
  runLighthouseForUrl h values url wsEndpoint s
  = let cmd := lighthouseCmd h values url wsEndpoint in
    let (r, w) := spawnSync h cmd wsEndpoint (world s) in
    Some (Normal
            match r with
            | Returned result =>
                if exitCode result =? 0
                then succeeded url (outputPathOf h values url)
                else failed url (stderr result)
            | Raised message => failed url message
            end,
          {| world := w; browser := browser s;
             trace := trace s ++ [EvSpawn cmd] |}).
Proof.
  unfold runLighthouseForUrl, tryCatch, bind, call, bunFileExists, readWorld,
    ret.
  cbv zeta.
  destruct (spawnSync h (lighthouseCmd h values url wsEndpoint) wsEndpoint
              (world s)) as [[result | message] w]; [|reflexivity].
  destruct (exitCode result =? 0); reflexivity.
Qed.

(** The test of line 246 is made on the promise and never holds. *)
Lemma exists_check_is_dead (path : string) (s : State W) :
  exists created,
    bunFileExists h path s = Some (Normal created, s)
    /\ negb (truthy created) = false.
Proof.
  exists (VPromise (fileExists h path (world s))). split; reflexivity.
Qed.

Lemma runLighthouseForUrl_returns (url wsEndpoint : string) (s : State W) :
  exists r w,
    runLighthouseForUrl h values url wsEndpoint s
    = Some (Normal r,
            {| world := w; browser := browser s;
               trace := trace s
                        ++ [EvSpawn (lighthouseCmd h values url wsEndpoint)] |})
    /\ result_url r = url.
Proof.
  rewrite runLighthouseForUrl_outcome. cbv zeta.
  destruct (spawnSync h (lighthouseCmd h values url wsEndpoint) wsEndpoint
              (world s)) as [[result | message] w].
  - eexists; exists w. split; [reflexivity|].
    destruct (exitCode result =? 0); reflexivity.
  - eexists; exists w. split; reflexivity.
Qed.

End Invoker.

(** C7. The audit invoker always completes normally with an AuditResult
    for its target; when the start of the auditor throws, the result is a
    failed one whose error is the message of the exception. *)
Theorem invoker_never_throws {W : Type} (h : Host W) (values : Values)
  (url wsEndpoint : string) (s : State W) :
  exists r s',
    runLighthouseForUrl h values url wsEndpoint s = Some (Normal r, s')
    /\ result_url r = url
    /\ forall message w,
         spawnSync h (lighthouseCmd h values url wsEndpoint) wsEndpoint
                   (world s) = (Raised message, w) ->
         r = failed url message /\ world s' = w.
Proof.
  rewrite runLighthouseForUrl_outcome. cbv zeta.
  destruct (spawnSync h (lighthouseCmd h values url wsEndpoint) wsEndpoint
              (world s)) as [[result | message] w].
  - eexists; eexists. split; [reflexivity|]. split.
    + destruct (exitCode result =? 0); reflexivity.
    + intros m w' Heq. discriminate Heq.
  - eexists; eexists. split; [reflexivity|]. split; [reflexivity|].
    intros m w' Heq. injection Heq as -> ->. split; reflexivity.
Qed.

(** With an auditor that cannot be started, the exception becomes the
    error of a failed result. *)
Lemma invoker_never_throws_witness :
  exists s',
    runLighthouseForUrl Example.noAuditor Example.values "https://a.com" "ws://chrome:3000/"
                        (initial [])
    = Some (Normal (failed "https://a.com"
                      "ENOENT: no such file or directory, posix_spawn"), s').
Proof.
  destruct (invoker_never_throws Example.noAuditor
              Example.values "https://a.com" "ws://chrome:3000/" (initial []))
    as [r [s' [Hrun [_ Hthrow]]]].
  exists s'. rewrite Hrun.
  destruct (Hthrow "ENOENT: no such file or directory, posix_spawn" [] eq_refl)
    as [-> _].
  reflexivity.
Defined.

(** An exit code of 0 gives a succeeded result, whether or not the
    report exists. *)
Lemma exit_zero_is_success {W : Type} (h : Host W) (values : Values)
  (url wsEndpoint : string) (s : State W) (result : SpawnResult) (w : W) :
  spawnSync h (lighthouseCmd h values url wsEndpoint) wsEndpoint (world s)
  = (Returned result, w) ->
  exitCode result = 0 ->
  runLighthouseForUrl h values url wsEndpoint s
  = Some (Normal (succeeded url (outputPathOf h values url)),
          {| world := w; browser := browser s;
             trace := trace s
                      ++ [EvSpawn (lighthouseCmd h values url wsEndpoint)] |}).
Proof.
  intros Hspawn Hcode. rewrite runLighthouseForUrl_outcome. cbv zeta.
  rewrite Hspawn, Hcode. reflexivity.
Qed.

(** C3, on the code: the auditor exits with 0 and writes nothing; the
    report is missing afterwards, and the invoker returns a succeeded
    result that names it, not the failed one with
    ["Output file not created"]. *)
Theorem missing_report_counts_as_success :
  exists s',
    runLighthouseForUrl Example.silent Example.values "https://bad.com"
                        "ws://chrome:3000/" (initial [])
    = Some (Normal (succeeded "https://bad.com" "/work/reports/bad_com.json"),
            s')
    /\ fileExists Example.silent "/work/reports/bad_com.json" (world s')
       = false
    /\ outputPathOf Example.silent Example.values "https://bad.com"
       = "/work/reports/bad_com.json".
Proof.
  eexists. split; [|split].
  - vm_compute. reflexivity.
  - reflexivity.
  - reflexivity.
Qed.

(** ** Lists: [slice] and the windows *)

Section Windows.

Context {A : Type}.

(** Inside the list and with a positive size, [slice] is a piece of
    [size] elements at most, cut at index [i]. *)
Lemma slice_window (l : list A) (i size : Z) :
  0 <= i -> 0 < size ->
  slice l i (i + size) = firstn (Z.to_nat size) (skipn (Z.to_nat i) l).
Proof.
  intros Hi Hsize. unfold slice, relativeIndex.
  destruct (Z.ltb_spec i 0) as [Hneg|_]; [lia|].
  destruct (Z.ltb_spec (i + size) 0) as [Hneg|_]; [lia|].
  set (len := Z.of_nat (List.length l)).
  destruct (Z.le_gt_cases i len) as [Hin|Hout].
  - rewrite (Z.min_l i len) by exact Hin.
    assert (Hrest : List.length (skipn (Z.to_nat i) l) = Z.to_nat (len - i)).
    { rewrite length_skipn. unfold len. lia. }
    destruct (Z.le_gt_cases (i + size) len) as [Hfull|Hshort].
    + rewrite Z.min_l by exact Hfull. f_equal. lia.
    + rewrite Z.min_r by lia.
      rewrite <- Hrest, firstn_all.
      symmetry. apply firstn_all2. lia.
  - rewrite (Z.min_r i len) by lia.
    rewrite (skipn_all2 (n := Z.to_nat len)) by (unfold len; lia).
    rewrite (skipn_all2 (n := Z.to_nat i)) by (unfold len in Hout; lia).
    rewrite !firstn_nil. reflexivity.
Qed.

Lemma chunksOf_nil (fuel size : nat) : chunksOf fuel size (@nil A) = [].
Proof. destruct fuel; reflexivity. Qed.

Lemma chunksOf_cons (fuel size : nat) (x : A) (l : list A) :
  chunksOf (S fuel) size (x :: l)
  = firstn size (x :: l) :: chunksOf fuel size (skipn size (x :: l)).
Proof. reflexivity. Qed.

(** Fuel beyond the length of the list is not used. *)
Lemma chunksOf_fuel (size : nat) :
  (0 < size)%nat ->
  forall (f1 f2 : nat) (l : list A),
    (List.length l <= f1)%nat -> (List.length l <= f2)%nat ->
    chunksOf f1 size l = chunksOf f2 size l.
Proof.
  intros Hsize. induction f1 as [|f1 IH]; intros f2 l H1 H2.
  - destruct l; [|simpl in H1; lia]. rewrite !chunksOf_nil. reflexivity.
  - destruct l as [|x l]; [rewrite !chunksOf_nil; reflexivity|].
    destruct f2 as [|f2]; [simpl in H2; lia|].
    rewrite !chunksOf_cons. f_equal.
    apply IH; rewrite length_skipn; cbn [List.length] in *; lia.
Qed.

Lemma chunksOf_concat (size : nat) :
  (0 < size)%nat ->
  forall (fuel : nat) (l : list A),
    (List.length l <= fuel)%nat -> concat (chunksOf fuel size l) = l.
Proof.
  intros Hsize. induction fuel as [|fuel IH]; intros l Hl.
  - destruct l; [reflexivity|simpl in Hl; lia].
  - destruct l as [|x l]; [reflexivity|].
    rewrite chunksOf_cons. simpl concat.
    rewrite IH by (rewrite length_skipn; cbn [List.length] in *; lia).
    apply firstn_skipn.
Qed.

Lemma chunksOf_sizes (size : nat) :
  (0 < size)%nat ->
  forall (fuel : nat) (l : list A),
    Forall (fun w => 1 <= List.length w <= size)%nat (chunksOf fuel size l).
Proof.
  intros Hsize. induction fuel as [|fuel IH]; intros l.
  - constructor.
  - destruct l as [|x l]; [constructor|].
    rewrite chunksOf_cons. constructor; [|apply IH].
    rewrite length_firstn. simpl List.length. lia.
Qed.

(** Every window but the last is full. *)
Lemma chunksOf_full (size : nat) :
  (0 < size)%nat ->
  forall (fuel : nat) (l : list A) (j : nat),
    (List.length l <= fuel)%nat ->
    (S j < List.length (chunksOf fuel size l))%nat ->
    List.length (nth j (chunksOf fuel size l) []) = size.
Proof.
  intros Hsize. induction fuel as [|fuel IH]; intros l j Hl Hj.
  - simpl in Hj. lia.
  - destruct l as [|x l]; [simpl in Hj; lia|].
    rewrite chunksOf_cons in Hj |- *.
    destruct j as [|j].
    + simpl nth. rewrite length_firstn.
      destruct (skipn size (x :: l)) as [|y rest] eqn:Hrest.
      * rewrite chunksOf_nil in Hj. simpl in Hj. lia.
      * assert (Hlen : List.length (skipn size (x :: l)) = S (List.length rest))
          by (rewrite Hrest; reflexivity).
        rewrite length_skipn in Hlen. lia.
    + simpl nth. apply IH.
      * rewrite length_skipn. cbn [List.length] in *. lia.
      * simpl in Hj. lia.
Qed.

(** Seven elements in windows of three. *)
Lemma chunksOf_seven (l : list A) :
  List.length l = 7%nat -> map (@List.length A) (chunksOf 7 3 l) = [3; 3; 1]%nat.
Proof.
  intros Hl.
  do 7 (destruct l as [|? l]; [discriminate Hl|]).
  destruct l; [reflexivity|discriminate Hl].
Qed.

End Windows.

(** ** Traces *)

Section Traces.

Lemma windows_app (t1 t2 : list Event) :
  windows (t1 ++ t2) = (windows t1 ++ windows t2)%list.
Proof.
  induction t1 as [|e t1 IH]; [reflexivity|].
  destruct e; simpl; rewrite IH; reflexivity.
Qed.

Lemma closeCalls_app (t1 t2 : list Event) :
  closeCalls (t1 ++ t2) = (closeCalls t1 + closeCalls t2)%nat.
Proof.
  induction t1 as [|e t1 IH]; [reflexivity|].
  destruct e; simpl; rewrite IH; reflexivity.
Qed.

End Traces.

(** ** Batch runner *)

Section Batch.

Context {W : Type}.
Variable h : Host W.
Variable values : Values.

Lemma promiseAll_fulfilled {A : Type} (l : list A) :
  promiseAll (map Fulfilled l) = Normal l.
Proof.
  induction l as [|a l IH]; simpl; [reflexivity|]. rewrite IH. reflexivity.
Qed.

(** The calls of one chunk: every promise is fulfilled, with a result for
    its own URL, and only the auditor is called. *)
Lemma mapAsync_invoker (wsEndpoint : string) (chunk : list string) :
  forall s : State W,
  exists rs t w,
    mapAsync (fun url => runLighthouseForUrl h values url wsEndpoint) chunk s
    = Some (Normal (map Fulfilled rs),
            {| world := w; browser := browser s; trace := trace s ++ t |})
    /\ map result_url rs = chunk
    /\ windows t = []
    /\ closeCalls t = 0%nat
    /\ existsb isSummary t = false.
Proof.
  induction chunk as [|url chunk IH]; intros s.
  - exists [], [], (world s). simpl. unfold ret. rewrite app_nil_r.
    destruct s; repeat split; reflexivity.
  - destruct (runLighthouseForUrl_returns h values url wsEndpoint s)
      as [r [w1 [Hrun Hurl]]].
    simpl mapAsync. rewrite Hrun.
    match goal with
    | |- context [bind _ _ ?s1] => destruct (IH s1) as [rs [t [w [Hmap Hrest]]]]
    end.
    destruct Hrest as [Hurls [Hwin [Hclose Hsum]]].
    exists (r :: rs), (EvSpawn (lighthouseCmd h values url wsEndpoint) :: t), w.
    unfold bind. rewrite Hmap. simpl. unfold ret.
    rewrite <- app_assoc. simpl.
    repeat split; try assumption.
    rewrite Hurl, Hurls. reflexivity.
Qed.

Lemma chunkLoop_step (fuel : nat) (urls : list string) (chunkSize : Z)
  (wsEndpoint : string) (i : Z) (results : list AuditResult) :
  chunkLoop h values (S fuel) urls chunkSize wsEndpoint i results
  = if i <? Z.of_nat (List.length urls) then
      let chunk := slice urls i (i + chunkSize) in
      emit (EvBatch chunk) ;;
      promises <- mapAsync (fun url => runLighthouseForUrl h values url wsEndpoint)
                           chunk ;;
      batchResults <- awaitAll promises ;;
      chunkLoop h values fuel urls chunkSize wsEndpoint (i + chunkSize)
                (results ++ batchResults)
    else ret results.
Proof. reflexivity. Qed.

(** One iteration inside the list: the chunk is announced, its audits
    run, and the loop goes on behind it. *)
Lemma chunkLoop_iteration (fuel : nat) (urls : list string) (chunkSize : Z)
  (wsEndpoint : string) (i : Z) (results : list AuditResult) (s : State W) :
  i < Z.of_nat (List.length urls) ->
  exists rs t w,
    map result_url rs = slice urls i (i + chunkSize)
    /\ windows t = [] /\ closeCalls t = 0%nat /\ existsb isSummary t = false
    /\ chunkLoop h values (S fuel) urls chunkSize wsEndpoint i results s
       = chunkLoop h values fuel urls chunkSize wsEndpoint (i + chunkSize)
           (results ++ rs)
           {| world := w; browser := browser s;
              trace := trace s
                       ++ EvBatch (slice urls i (i + chunkSize)) :: t |}.
Proof.
  intros Hin. rewrite chunkLoop_step.
  destruct (Z.ltb_spec i (Z.of_nat (List.length urls))) as [_|Hout]; [|lia].
  cbv zeta. unfold bind at 1. unfold emit at 1.
  match goal with
  | |- context [bind (mapAsync ?f ?c) _ ?s1] =>
      destruct (mapAsync_invoker wsEndpoint c s1)
        as [rs [t [w [Hmap [Hurls [Hwin [Hclose Hsum]]]]]]]
  end.
  exists rs, t, w. repeat split; try assumption.
  unfold bind at 1. rewrite Hmap.
  unfold bind at 1. unfold awaitAll. rewrite promiseAll_fulfilled.
  simpl. rewrite <- app_assoc. reflexivity.
Qed.


(** With a positive chunk size and fuel beyond what is left of the list,
    the loop completes normally: the new results are those of the URLs
    from [i] on, in order, and the chunks are the windows of that rest. *)
Lemma chunkLoop_runs (urls : list string) (chunkSize : Z)
  (wsEndpoint : string) :
  0 < chunkSize ->
  forall (fuel : nat) (i : Z) (results : list AuditResult) (s : State W),
    0 <= i ->
    Z.max 0 (Z.of_nat (List.length urls) - i) < Z.of_nat fuel ->
    exists rs t w,
      chunkLoop h values fuel urls chunkSize wsEndpoint i results s
      = Some (Normal (results ++ rs)%list,
              {| world := w; browser := browser s; trace := trace s ++ t |})
      /\ map result_url rs = skipn (Z.to_nat i) urls
      /\ windows t
         = chunksOf (List.length urls) (Z.to_nat chunkSize)
                    (skipn (Z.to_nat i) urls)
      /\ closeCalls t = 0%nat
      /\ existsb isSummary t = false.
Proof.
  intros Hsize. induction fuel as [|fuel IH]; intros i results s Hi Hfuel;
    [lia|].
  destruct (Z.lt_ge_cases i (Z.of_nat (List.length urls))) as [Hin|Hout].
  - destruct (chunkLoop_iteration fuel urls chunkSize wsEndpoint i results s Hin)
      as [rs1 [t1 [w1 [Hurls1 [Hwin1 [Hclose1 [Hsum1 Hstep]]]]]]].
    rewrite Hstep.
    match goal with
    | |- context [chunkLoop _ _ _ _ _ _ ?i' ?r' ?s'] =>
        destruct (IH i' r' s') as [rs2 [t2 [w2 [Hloop Hrest]]]]; [lia|lia|]
    end.
    destruct Hrest as [Hurls2 [Hwin2 [Hclose2 Hsum2]]].
    rewrite slice_window in Hurls1 by lia.
    assert (Hskip : skipn (Z.to_nat (i + chunkSize)) urls
                    = skipn (Z.to_nat chunkSize) (skipn (Z.to_nat i) urls)).
    { rewrite skipn_skipn. f_equal. lia. }
    exists (rs1 ++ rs2)%list,
           (EvBatch (slice urls i (i + chunkSize)) :: t1 ++ t2)%list, w2.
    rewrite Hloop. simpl. rewrite <- !app_assoc. simpl.
    split; [reflexivity|]. split; [|split; [|split]].
    + rewrite map_app, Hurls1, Hurls2, Hskip. apply firstn_skipn.
    + rewrite windows_app, Hwin1, Hwin2, Hskip. simpl.
      rewrite slice_window by lia.
      destruct (skipn (Z.to_nat i) urls) as [|x rest] eqn:Hrest.
      * assert (Hlen : List.length (skipn (Z.to_nat i) urls) = 0%nat)
          by (rewrite Hrest; reflexivity).
        rewrite length_skipn in Hlen. lia.
      * assert (Hlen : List.length (skipn (Z.to_nat i) urls)
                       = S (List.length rest))
          by (rewrite Hrest; reflexivity).
        rewrite length_skipn in Hlen.
        rewrite (chunksOf_fuel (Z.to_nat chunkSize) ltac:(lia)
                   (List.length urls) (S (List.length rest)) (x :: rest))
          by (cbn [List.length]; lia).
        rewrite chunksOf_cons. f_equal.
        apply chunksOf_fuel; [lia| |];
          rewrite length_skipn; cbn [List.length]; lia.
    + rewrite closeCalls_app, Hclose1, Hclose2. reflexivity.
    + rewrite existsb_app, Hsum1, Hsum2. reflexivity.
  - rewrite chunkLoop_step.
    destruct (Z.ltb_spec i (Z.of_nat (List.length urls))) as [Hin|_]; [lia|].
    exists [], [], (world s). unfold ret. rewrite !app_nil_r.
    rewrite skipn_all2 by lia. rewrite chunksOf_nil.
    destruct s; repeat split; reflexivity.
Qed.

(** A unit of fuel more does not change a completed loop. *)
Lemma chunkLoop_more_fuel (urls : list string) (chunkSize : Z)
  (wsEndpoint : string) :
  forall (fuel : nat) (i : Z) (results : list AuditResult) (s : State W) x,
    chunkLoop h values fuel urls chunkSize wsEndpoint i results s = Some x ->
    chunkLoop h values (S fuel) urls chunkSize wsEndpoint i results s = Some x.
Proof.
  induction fuel as [|fuel IH]; intros i results s x Hrun; [discriminate Hrun|].
  revert Hrun.
  rewrite (chunkLoop_step (S fuel) urls chunkSize wsEndpoint i results).
  rewrite (chunkLoop_step fuel urls chunkSize wsEndpoint i results).
  destruct (i <? Z.of_nat (List.length urls)); [|exact (fun H => H)].
  cbv zeta. unfold bind, emit, awaitAll.
  destruct (mapAsync _ _ _) as [[[ps | m | code] s1]|];
    try exact (fun H => H).
  destruct (promiseAll ps) as [bs | m | code]; try exact (fun H => H).
  apply IH.
Qed.

Lemma chunkLoop_fuel_le (urls : list string) (chunkSize : Z)
  (wsEndpoint : string) (i : Z) (results : list AuditResult) (s : State W) x :
  forall fuel fuel' : nat,
    (fuel <= fuel')%nat ->
    chunkLoop h values fuel urls chunkSize wsEndpoint i results s = Some x ->
    chunkLoop h values fuel' urls chunkSize wsEndpoint i results s = Some x.
Proof.
  intros fuel fuel' Hle Hrun. induction Hle as [|fuel' _ IH]; [exact Hrun|].
  apply chunkLoop_more_fuel. exact IH.
Qed.

(** With a chunk size of zero or less the index never gets past the head
    of a list that is not empty: no amount of fuel completes the loop. *)
Lemma chunkLoop_diverges (urls : list string) (chunkSize : Z)
  (wsEndpoint : string) :
  chunkSize <= 0 -> urls <> [] ->
  forall (fuel : nat) (i : Z) (results : list AuditResult) (s : State W),
    i <= 0 ->
    chunkLoop h values fuel urls chunkSize wsEndpoint i results s = None.
Proof.
  intros Hsize Hurls. induction fuel as [|fuel IH]; intros i results s Hi;
    [reflexivity|].
  assert (Hin : i < Z.of_nat (List.length urls)).
  { destruct urls; [contradiction|]. cbn [List.length]. lia. }
  destruct (chunkLoop_iteration fuel urls chunkSize wsEndpoint i results s Hin)
    as [rs [t [w [_ [_ [_ [_ Hstep]]]]]]].
  rewrite Hstep. apply IH. lia.
Qed.

(** The batch runner with a positive chunk size. *)
Lemma processUrlsInChunks_runs (urls : list string) (chunkSize : Z)
  (wsEndpoint : string) (fuel : nat) (s : State W) :
  0 < chunkSize ->
  (List.length urls < fuel)%nat ->
  exists results t w,
    processUrlsInChunks h values fuel urls chunkSize wsEndpoint s
    = Some (Normal results,
            {| world := w; browser := browser s; trace := trace s ++ t |})
    /\ map result_url results = urls
    /\ windows t = chunksOf (List.length urls) (Z.to_nat chunkSize) urls
    /\ closeCalls t = 0%nat
    /\ existsb isSummary t = false.
Proof.
  intros Hsize Hfuel.
  destruct (chunkLoop_runs urls chunkSize wsEndpoint Hsize fuel 0 [] s)
    as [rs [t [w [Hrun Hrest]]]]; [lia|lia|].
  exists rs, t, w. split; [exact Hrun|exact Hrest].
Qed.

(** A completed batch is the same for every amount of fuel. *)
Lemma processUrlsInChunks_fuel (urls : list string) (chunkSize : Z)
  (wsEndpoint : string) (s : State W) (fuel fuel' : nat) x y :
  processUrlsInChunks h values fuel urls chunkSize wsEndpoint s = Some x ->
  processUrlsInChunks h values fuel' urls chunkSize wsEndpoint s = Some y ->
  x = y.
Proof.
  unfold processUrlsInChunks. intros Hx Hy.
  apply (chunkLoop_fuel_le _ _ _ _ _ _ _ fuel (Nat.max fuel fuel')) in Hx;
    [|apply Nat.le_max_l].
  apply (chunkLoop_fuel_le _ _ _ _ _ _ _ fuel' (Nat.max fuel fuel')) in Hy;
    [|apply Nat.le_max_r].
  congruence.
Qed.

End Batch.

(** C1. For every list of targets and every positive window size the
    batch runner returns, once given fuel beyond the length of the list,
    one AuditResult per target: as many results as targets, the i-th
    result carrying the i-th target as its url, and the same results for
    any amount of fuel that lets it complete. *)
Theorem batch_results_follow_targets {W : Type} (h : Host W)
  (values : Values) (urls : list string) (chunkSize : Z)
  (wsEndpoint : string) (s : State W) :
  0 < chunkSize ->
  exists results s',
    processUrlsInChunks h values (S (List.length urls)) urls chunkSize
                        wsEndpoint s
    = Some (Normal results, s')
    /\ List.length results = List.length urls
    /\ map result_url results = urls
    /\ (forall i, (i < List.length urls)%nat ->
        option_map result_url (nth_error results i) = nth_error urls i)
    /\ forall fuel x,
         processUrlsInChunks h values fuel urls chunkSize wsEndpoint s = Some x ->
         x = (Normal results, s').
Proof.
  intros Hsize.
  destruct (processUrlsInChunks_runs h values urls chunkSize wsEndpoint
              (S (List.length urls)) s Hsize (Nat.lt_succ_diag_r _))
    as [results [t [w [Hrun [Hurls _]]]]].
  eexists; eexists. split; [exact Hrun|].
  split; [|split; [exact Hurls|split]].
  - rewrite <- Hurls. symmetry. apply length_map.
  - intros i _. rewrite <- Hurls. symmetry. apply nth_error_map.
  - intros fuel x Hx.
    exact (processUrlsInChunks_fuel h values urls chunkSize wsEndpoint s
             _ _ _ _ Hx Hrun).
Qed.

Lemma batch_results_follow_targets_witness :
  0 < 2
  /\ exists results s',
       processUrlsInChunks Example.working Example.values 4
         ["https://a.com"; "https://b.com"; "https://c.com"] 2
         "ws://chrome:3000/" (initial [])
       = Some (Normal results, s')
       /\ map result_url results
          = ["https://a.com"; "https://b.com"; "https://c.com"].
Proof.
  split; [lia|].
  destruct (batch_results_follow_targets Example.working Example.values
              ["https://a.com"; "https://b.com"; "https://c.com"] 2
              "ws://chrome:3000/" (initial []))
    as [results [s' [Hrun [_ [Hurls _]]]]]; [lia|].
  exists results, s'. split; [exact Hrun|exact Hurls].
Defined.

(** C8. With a positive window size the batch runner cuts the targets
    into consecutive windows: put end to end they give the list back,
    none is empty or longer than the window size, and every one but the
    last has exactly that size; seven targets in windows of three give
    three windows of sizes 3, 3 and 1. *)
Theorem batch_windows {W : Type} (h : Host W) (values : Values)
  (urls : list string) (chunkSize : Z) (wsEndpoint : string) (s : State W) :
  0 < chunkSize ->
  exists results t w,
    processUrlsInChunks h values (S (List.length urls)) urls chunkSize
                        wsEndpoint s
    = Some (Normal results,
            {| world := w; browser := browser s; trace := trace s ++ t |})
    /\ concat (windows t) = urls
    /\ Forall (fun win => 1 <= Z.of_nat (List.length win) <= chunkSize)
              (windows t)
    /\ (forall j, (S j < List.length (windows t))%nat ->
        Z.of_nat (List.length (nth j (windows t) [])) = chunkSize)
    /\ (List.length urls = 7%nat -> chunkSize = 3 ->
        map (@List.length string) (windows t) = [3; 3; 1]%nat).
Proof.
  intros Hsize.
  destruct (processUrlsInChunks_runs h values urls chunkSize wsEndpoint
              (S (List.length urls)) s Hsize (Nat.lt_succ_diag_r _))
    as [results [t [w [Hrun [_ [Hwin _]]]]]].
  assert (Hpos : (0 < Z.to_nat chunkSize)%nat) by lia.
  exists results, t, w. split; [exact Hrun|]. rewrite Hwin.
  split; [|split; [|split]].
  - apply chunksOf_concat; [exact Hpos|lia].
  - eapply Forall_impl; [|apply chunksOf_sizes; exact Hpos].
    cbv beta. intros win Hw. lia.
  - intros j Hj. rewrite chunksOf_full; [lia|exact Hpos|lia|exact Hj].
  - intros Hseven ->. rewrite Hseven. apply chunksOf_seven. exact Hseven.
Qed.

Lemma batch_windows_witness :
  0 < 3
  /\ exists results s',
       processUrlsInChunks Example.working Example.values 8
         ["u1"; "u2"; "u3"; "u4"; "u5"; "u6"; "u7"] 3 "ws://chrome:3000/"
         (initial [])
       = Some (Normal results, s')
       /\ map (@List.length string) (windows (trace s')) = [3; 3; 1]%nat.
Proof.
  split; [lia|].
  destruct (batch_windows Example.working Example.values
              ["u1"; "u2"; "u3"; "u4"; "u5"; "u6"; "u7"] 3
              "ws://chrome:3000/" (initial []))
    as [results [t [w [Hrun [_ [_ [_ Hseven]]]]]]]; [lia|].
  eexists; eexists. split; [exact Hrun|].
  simpl. exact (Hseven eq_refl eq_refl).
Defined.

(** ** The run *)

Section Run.

Context {W : Type}.
Variable h : Host W.
Variable values : Values.

(** A session that was acquired is in [browser]; nothing was closed or
    summarised on the way. *)
Lemma acquire_stores (s s1 : State W) (b : string) :
  acquire h values s = Some (Normal b, s1) ->
  browser s1 = Some b
  /\ closeCalls (trace s1) = closeCalls (trace s)
  /\ existsb isSummary (trace s1) = existsb isSummary (trace s).
Proof.
  unfold acquire.
  destruct (given (chromeEndpoint values)) as [endpoint|].
  - unfold bind, call, setBrowser, ret.
    destruct (connect h endpoint (world s)) as [[b'|m] w]; intros Heq;
      [|discriminate Heq].
    injection Heq as <- <-. simpl.
    rewrite closeCalls_app, existsb_app. simpl.
    rewrite Nat.add_0_r, orb_false_r. repeat split.
  - unfold bind, isLocalChromeAvailable, readWorld.
    destruct (find _ _) as [chromePath|]; [|intros Heq; discriminate Heq].
    unfold bind, writeWorld, call, setBrowser, ret. simpl.
    destruct (launch h chromePath _) as [[b'|m] w]; intros Heq;
      [|discriminate Heq].
    injection Heq as <- <-. simpl.
    rewrite closeCalls_app, existsb_app. simpl.
    rewrite Nat.add_0_r, orb_false_r. repeat split.
Qed.

(** The [finally] block with a session in [browser]: one more call of
    [close], and a normal completion whether or not that call throws. *)
Lemma finallyBlock_closes (s : State W) (b : string) :
  browser s = Some b ->
  exists s',
    finallyBlock h s = Some (Normal tt, s')
    /\ closeCalls (trace s') = S (closeCalls (trace s))
    /\ existsb isSummary (trace s') = existsb isSummary (trace s).
Proof.
  intros Hb. unfold finallyBlock, bind, getBrowser. rewrite Hb.
  unfold tryCatch, closeBrowser, call, emit.
  destruct (close h b (world s)) as [[[]|m] w]; eexists;
    (split; [reflexivity|]); simpl;
    rewrite ?closeCalls_app, ?existsb_app; simpl;
    rewrite ?closeCalls_app; simpl; rewrite ?orb_false_r; split; try lia;
    reflexivity.
Qed.

(** The [try] block once the session is there and its version was read:
    with a positive window size and fuel beyond the number of targets the
    batch completes, [close] is called, and the summary follows when that
    call returns. *)
Lemma tryBlock_after_setup (fuel : nat) (urls : list string)
  (s s1 : State W) (b v : string) (w2 : W) :
  acquire h values s = Some (Normal b, s1) ->
  version h b (world s1) = (Returned v, w2) ->
  0 < concurrentAudits (concurrent values) ->
  (List.length urls < fuel)%nat ->
  exists results s3,
    processUrlsInChunks h values fuel urls
      (concurrentAudits (concurrent values)) b
      {| world := w2; browser := browser s1; trace := trace s1 ++ [EvVersion] |}
    = Some (Normal results, s3)
    /\ map result_url results = urls
    /\ browser s3 = Some b
    /\ closeCalls (trace s3) = closeCalls (trace s)
    /\ existsb isSummary (trace s3) = existsb isSummary (trace s)
    /\ tryBlock h values fuel urls s
       = match close h b (world s3) with
         | (Returned _, w4) =>
             Some (Normal tt,
                   {| world := w4; browser := Some b;
                      trace := trace s3 ++ [EvClose; summary results] |})
         | (Raised message, w4) =>
             Some (Throw message,
                   {| world := w4; browser := Some b;
                      trace := trace s3 ++ [EvClose] |})
         end.
Proof.
  intros Hacq Hver Hsize Hfuel.
  destruct (acquire_stores s s1 b Hacq) as [Hb [Hclose Hsum]].
  destruct (processUrlsInChunks_runs h values urls
              (concurrentAudits (concurrent values)) b fuel
              {| world := w2; browser := browser s1;
                 trace := trace s1 ++ [EvVersion] |} Hsize Hfuel)
    as [results [t [w3 [Hrun [Hurls [_ [Hclose3 Hsum3]]]]]]].
  eexists; eexists. split; [exact Hrun|]. simpl.
  split; [exact Hurls|]. split; [exact Hb|].
  split; [|split].
  - rewrite !closeCalls_app, Hclose3, Hclose. simpl. lia.
  - rewrite !existsb_app, Hsum3, Hsum. simpl. rewrite !orb_false_r.
    reflexivity.
  - unfold tryBlock. unfold bind at 1. rewrite Hacq.
    unfold bind at 1. unfold call at 1. rewrite Hver.
    cbv zeta. unfold bind at 1. rewrite Hrun.
    unfold bind, closeBrowser, call, emit. simpl. rewrite Hb.
    destruct (close h b w3) as [[[]|m] w4]; simpl;
      rewrite <- ?app_assoc; reflexivity.
Qed.

(** The whole run after a setup that went through. *)
Lemma runLighthouse_after_setup (fuel : nat) (urls : list string)
  (s s1 : State W) (b v : string) (w2 : W) :
  acquire h values s = Some (Normal b, s1) ->
  version h b (world s1) = (Returned v, w2) ->
  0 < concurrentAudits (concurrent values) ->
  (List.length urls < fuel)%nat ->
  exists results s3,
    processUrlsInChunks h values fuel urls
      (concurrentAudits (concurrent values)) b
      {| world := w2; browser := browser s1; trace := trace s1 ++ [EvVersion] |}
    = Some (Normal results, s3)
    /\ map result_url results = urls
    /\ match close h b (world s3) with
       | (Returned _, _) =>
           exists s',
             runLighthouse h values fuel urls s = Some (Normal tt, s')
             /\ closeCalls (trace s') = (closeCalls (trace s) + 2)%nat
             /\ existsb isSummary (trace s')
                = existsb isSummary (trace s) || true
       | (Raised message, _) =>
           exists s',
             runLighthouse h values fuel urls s = Some (Exit 1, s')
             /\ closeCalls (trace s') = (closeCalls (trace s) + 1)%nat
             /\ existsb isSummary (trace s') = existsb isSummary (trace s)
       end.
Proof.
  intros Hacq Hver Hsize Hfuel.
  destruct (tryBlock_after_setup fuel urls s s1 b v w2 Hacq Hver Hsize Hfuel)
    as [results [s3 [Hrun [Hurls [Hb [Hclose [Hsum Htry]]]]]]].
  exists results, s3. split; [exact Hrun|]. split; [exact Hurls|].
  unfold runLighthouse, tryCatchFinally, tryCatch. rewrite Htry.
  destruct (close h b (world s3)) as [[[]|m] w4].
  - unfold andFinally.
    match goal with
    | |- context [finallyBlock h ?s4] =>
        destruct (finallyBlock_closes s4 b eq_refl)
          as [s' [Hfin [Hclose' Hsum']]]
    end.
    rewrite Hfin. exists s'. split; [reflexivity|].
    simpl in Hclose', Hsum'.
    rewrite closeCalls_app in Hclose'. rewrite existsb_app in Hsum'.
    simpl in Hclose', Hsum'. split; [lia|].
    rewrite Hsum', Hsum. reflexivity.
  - unfold catchBlock, bind, emit, exit, andFinally. simpl.
    eexists. split; [reflexivity|]. simpl.
    rewrite !closeCalls_app, !existsb_app. simpl.
    rewrite Hclose, Hsum, !orb_false_r. split; [lia|reflexivity].
Qed.

(** When reading the version throws, the handler ends the process and
    the [finally] block is not run: the session is never closed. *)
Lemma version_failure_skips_close (fuel : nat) (urls : list string)
  (s s1 : State W) (b message : string) (w2 : W) :
  acquire h values s = Some (Normal b, s1) ->
  version h b (world s1) = (Raised message, w2) ->
  exists s',
    runLighthouse h values fuel urls s = Some (Exit 1, s')
    /\ closeCalls (trace s') = closeCalls (trace s).
Proof.
  intros Hacq Hver.
  destruct (acquire_stores s s1 b Hacq) as [_ [Hclose _]].
  unfold runLighthouse, tryCatchFinally, tryCatch, tryBlock.
  unfold bind at 1. rewrite Hacq.
  unfold bind at 1. unfold call at 1. rewrite Hver.
  unfold catchBlock, bind, emit, exit, andFinally. simpl.
  eexists. split; [reflexivity|]. simpl.
  rewrite !closeCalls_app, Hclose. simpl. lia.
Qed.

End Run.

(** ** Release of the browser session *)

(** C6 as stated fails: in a run where everything goes well [close] is
    called twice, after the batch (line 343) and again in the [finally]
    block (line 378); no amount of fuel gives a run of this host with
    exactly one call. *)
Lemma close_called_twice :
  runLighthouse Example.working Example.values 2 ["https://a.com"] (initial [])
  = Some (Normal tt,
          {| world := ["/work/reports/a_com.json"];
             browser := Some "ws://chrome:3000/";
             trace :=
               [ EvConnect "ws://chrome:3000/"; EvVersion;
                 EvBatch ["https://a.com"];
                 EvSpawn (lighthouseCmd Example.working Example.values
                            "https://a.com" "ws://chrome:3000/");
                 EvClose; EvSummary 1 1 0 []; EvClose ] |})
  /\ ~ exists fuel c s',
         runLighthouse Example.working Example.values fuel ["https://a.com"]
                       (initial [])
         = Some (c, s')
         /\ closeCalls (trace s') = 1%nat.
Proof.
  split; [reflexivity|].
  intros [fuel [c [s' [Hrun Hone]]]].
  destruct fuel as [|[|fuel]]; try discriminate Hrun.
  vm_compute in Hrun. injection Hrun as <- <-. discriminate Hone.
Qed.

(** C6, amended. In a run that completes setup and in which nothing
    throws before the summary is printed, [close] is called twice, after
    the batch and again in the [finally] block, and the run completes
    normally whatever the second call does: calling it twice is safe. *)
Theorem release_after_clean_run {W : Type} (h : Host W) (values : Values)
  (fuel : nat) (urls : list string) (s s1 : State W) (b v : string) (w2 : W) :
  acquire h values s = Some (Normal b, s1) ->
  version h b (world s1) = (Returned v, w2) ->
  0 < concurrentAudits (concurrent values) ->
  (List.length urls < fuel)%nat ->
  exists results s3,
    processUrlsInChunks h values fuel urls
      (concurrentAudits (concurrent values)) b
      {| world := w2; browser := browser s1; trace := trace s1 ++ [EvVersion] |}
    = Some (Normal results, s3)
    /\ forall u w4,
         close h b (world s3) = (Returned u, w4) ->
         exists s',
           runLighthouse h values fuel urls s = Some (Normal tt, s')
           /\ closeCalls (trace s') = (closeCalls (trace s) + 2)%nat.
Proof.
  intros Hacq Hver Hsize Hfuel.
  destruct (runLighthouse_after_setup h values fuel urls s s1 b v w2
              Hacq Hver Hsize Hfuel) as [results [s3 [Hrun [_ Hend]]]].
  exists results, s3. split; [exact Hrun|].
  intros u w4 Hclose. rewrite Hclose in Hend.
  destruct Hend as [s' [Hfinal [Hcalls _]]].
  exists s'. split; assumption.
Qed.

Lemma release_after_clean_run_witness :
  0 < concurrentAudits (concurrent Example.values)
  /\ (List.length ["https://a.com"] < 2)%nat
  /\ exists s',
       runLighthouse Example.working Example.values 2 ["https://a.com"]
                     (initial [])
       = Some (Normal tt, s')
       /\ closeCalls (trace s') = 2%nat.
Proof.
  split; [reflexivity|]. split; [simpl; lia|].
  destruct (release_after_clean_run Example.working Example.values 2
              ["https://a.com"] (initial [])
              {| world := []; browser := Some "ws://chrome:3000/";
                 trace := [EvConnect "ws://chrome:3000/"] |}
              "ws://chrome:3000/" "Chrome/120" []
              eq_refl eq_refl eq_refl ltac:(simpl; lia))
    as [results [s3 [_ Hclose]]].
  destruct (Hclose tt (world s3) eq_refl) as [s' [Hrun Hcalls]].
  exists s'. split; [exact Hrun|exact Hcalls].
Defined.

(** ** Termination of the batch *)

(** C10 as stated fails in one place: with a window size of 3 and a
    setup that went through, a [close] that throws after the batch sends
    the run to the handler, which ends the process before any summary. *)
Lemma summary_missed_when_close_throws :
  1 <= concurrentAudits (concurrent Example.values)
  /\ runLighthouse Example.closeFailing Example.values 2 ["https://a.com"]
                   (initial [])
     = Some (Exit 1,
             {| world := ["/work/reports/a_com.json"];
                browser := Some "ws://chrome:3000/";
                trace :=
                  [ EvConnect "ws://chrome:3000/"; EvVersion;
                    EvBatch ["https://a.com"];
                    EvSpawn (lighthouseCmd Example.closeFailing Example.values
                               "https://a.com" "ws://chrome:3000/");
                    EvClose; EvFatal "Connection closed" ] |})
  /\ ~ exists fuel c s',
         runLighthouse Example.closeFailing Example.values fuel
                       ["https://a.com"] (initial [])
         = Some (c, s')
         /\ existsb isSummary (trace s') = true.
Proof.
  split; [discriminate|]. split; [reflexivity|].
  intros [fuel [c [s' [Hrun Hsum]]]].
  destruct fuel as [|[|fuel]]; try discriminate Hrun.
  vm_compute in Hrun. injection Hrun as <- <-. discriminate Hsum.
Qed.

(** C10, amended. For every list of URLs and every chunk size of at
    least 1 the batch runner completes with any fuel beyond the length of
    the list, each iteration moving the index forward by the chunk size;
    so a run whose setup went through gets past the batch to
    [browser.close()], and prints the summary when that call returns.
    With a chunk size of zero or less and a list that is not empty no
    fuel completes the batch, and a negative [--concurrent] gives such a
    chunk size. *)
Theorem chunking_terminates_when_positive {W : Type} (h : Host W)
  (values : Values) :
  (forall urls chunkSize wsEndpoint s fuel,
     1 <= chunkSize -> (List.length urls < fuel)%nat ->
     exists results s',
       processUrlsInChunks h values fuel urls chunkSize wsEndpoint s
       = Some (Normal results, s'))
  /\ (forall fuel urls s s1 b v w2,
        acquire h values s = Some (Normal b, s1) ->
        version h b (world s1) = (Returned v, w2) ->
        1 <= concurrentAudits (concurrent values) ->
        (List.length urls < fuel)%nat ->
        exists results s3,
          processUrlsInChunks h values fuel urls
            (concurrentAudits (concurrent values)) b
            {| world := w2; browser := browser s1;
               trace := trace s1 ++ [EvVersion] |}
          = Some (Normal results, s3)
          /\ match close h b (world s3) with
             | (Returned _, _) =>
                 exists s',
                   runLighthouse h values fuel urls s = Some (Normal tt, s')
                   /\ existsb isSummary (trace s') = true
             | (Raised _, _) =>
                 exists s',
                   runLighthouse h values fuel urls s = Some (Exit 1, s')
                   /\ closeCalls (trace s')
                      = (closeCalls (trace s) + 1)%nat
             end)
  /\ (forall urls chunkSize wsEndpoint s fuel,
        chunkSize <= 0 -> urls <> [] ->
        processUrlsInChunks h values fuel urls chunkSize wsEndpoint s = None)
  /\ (forall concurrent n,
        parseInt10 concurrent = Some n -> n < 0 ->
        concurrentAudits concurrent = n)
  /\ concurrentAudits "-1" = -1.
Proof.
  split; [|split; [|split; [|split]]].
  - intros urls chunkSize wsEndpoint s fuel Hsize Hfuel.
    destruct (processUrlsInChunks_runs h values urls chunkSize wsEndpoint
                fuel s ltac:(lia) Hfuel) as [results [t [w [Hrun _]]]].
    eexists; eexists. exact Hrun.
  - intros fuel urls s s1 b v w2 Hacq Hver Hsize Hfuel.
    destruct (runLighthouse_after_setup h values fuel urls s s1 b v w2
                Hacq Hver ltac:(lia) Hfuel) as [results [s3 [Hrun [_ Hend]]]].
    exists results, s3. split; [exact Hrun|].
    destruct (close h b (world s3)) as [[u|m] w4].
    + destruct Hend as [s' [Hfinal [_ Hsum]]].
      exists s'. split; [exact Hfinal|].
      rewrite Hsum. apply orb_true_r.
    + destruct Hend as [s' [Hfinal [Hcalls _]]].
      exists s'. split; assumption.
  - intros urls chunkSize wsEndpoint s fuel Hsize Hurls.
    apply chunkLoop_diverges; [exact Hsize|exact Hurls|lia].
  - intros concurrent n Hparse Hneg.
    apply concurrentAudits_number; [exact Hparse|lia].
  - reflexivity.
Qed.

Lemma chunking_terminates_when_positive_witness :
  (1 <= 2
   /\ (List.length ["https://a.com"; "https://b.com"; "https://c.com"] < 4)%nat
   /\ exists results s',
        processUrlsInChunks Example.working Example.values 4
          ["https://a.com"; "https://b.com"; "https://c.com"] 2
          "ws://chrome:3000/" (initial [])
        = Some (Normal results, s'))
  /\ (concurrentAudits "-1" <= 0
      /\ ["https://a.com"] <> []
      /\ processUrlsInChunks Example.working Example.values 1000
           ["https://a.com"] (concurrentAudits "-1") "ws://chrome:3000/"
           (initial [])
         = None).
Proof.
  split.
  - split; [lia|]. split; [simpl; lia|].
    apply (proj1 (chunking_terminates_when_positive Example.working
                    Example.values));
      [lia|simpl; lia].
  - split; [discriminate|]. split; [discriminate|].
    apply (proj1 (proj2 (proj2 (chunking_terminates_when_positive
                                  Example.working Example.values))));
      [discriminate|discriminate].
Defined.

(** * Further properties *)

(** ** Duplicates and schemes in the target list *)

Section TargetList.

Lemma seen_spec (x : string) (seen : list string) :
  existsb (String.eqb x) seen = true <-> In x seen.
Proof.
  rewrite existsb_exists. split.
  - intros [y [Hin Heq]]. apply String.eqb_eq in Heq. subst y. exact Hin.
  - intros Hin. exists x. split; [exact Hin|apply String.eqb_refl].
Qed.

Lemma setSpreadFrom_In (x : string) (l seen : list string) :
  In x (setSpreadFrom seen l) <-> In x l /\ ~ In x seen.
Proof.
  revert seen. induction l as [|y l IH]; intros seen; simpl.
  - tauto.
  - destruct (existsb (String.eqb y) seen) eqn:E.
    + apply seen_spec in E. rewrite IH. split.
      * intros [Hl Hs]. split; [right; exact Hl|exact Hs].
      * intros [[-> | Hl] Hs]; [contradiction|]. split; assumption.
    + assert (Hy : ~ In y seen).
      { intros Hin. apply seen_spec in Hin. congruence. }
      simpl. rewrite IH. simpl. split.
      * intros [-> | [Hl Hs]]; [split; [left; reflexivity|exact Hy]|].
        split; [right; exact Hl|tauto].
      * intros [[-> | Hl] Hs]; [left; reflexivity|].
        destruct (string_dec y x) as [-> | Hne]; [left; reflexivity|].
        right. split; [exact Hl|]. intros [Heq | Hin]; tauto.
Qed.

Lemma setSpreadFrom_NoDup (l seen : list string) :
  NoDup (setSpreadFrom seen l).
Proof.
  revert seen. induction l as [|y l IH]; intros seen; simpl.
  - constructor.
  - destruct (existsb (String.eqb y) seen); [apply IH|].
    constructor; [|apply IH].
    rewrite setSpreadFrom_In. intros [_ Hnot]. apply Hnot. left. reflexivity.
Qed.

(** The spread of the set has the elements of the list, each once. *)
Theorem setSpread_distinct (l : list string) :
  NoDup (setSpread l) /\ forall x, In x (setSpread l) <-> In x l.
Proof.
  split; [apply setSpreadFrom_NoDup|].
  intros x. unfold setSpread. rewrite setSpreadFrom_In. simpl. tauto.
Qed.

Lemma setSpreadFrom_seen (l s1 s2 : list string) :
  (forall z, In z s1 <-> In z s2) ->
  setSpreadFrom s1 l = setSpreadFrom s2 l.
Proof.
  revert s1 s2. induction l as [|y l IH]; intros s1 s2 Hsame; simpl;
    [reflexivity|].
  assert (E : existsb (String.eqb y) s1 = existsb (String.eqb y) s2).
  { apply eq_true_iff_eq. rewrite !seen_spec. apply Hsame. }
  rewrite E. destruct (existsb (String.eqb y) s2); [apply IH; exact Hsame|].
  f_equal. apply IH. intros z. simpl. rewrite Hsame. tauto.
Qed.

Lemma setSpreadFrom_filter (x : string) (l seen : list string) :
  setSpreadFrom (x :: seen) l
  = setSpreadFrom seen (filter (fun y => negb (String.eqb x y)) l).
Proof.
  revert seen. induction l as [|y l IH]; intros seen; simpl; [reflexivity|].
  destruct (String.eqb_spec y x) as [-> | Hne].
  - rewrite String.eqb_refl. simpl. apply IH.
  - destruct (String.eqb_spec x y) as [Heq | _]; [congruence|]. simpl.
    destruct (existsb (String.eqb y) seen); [apply IH|].
    f_equal. rewrite <- IH. apply setSpreadFrom_seen.
    intros z. simpl. tauto.
Qed.

(** The order is that of the first occurrences: the head stays where it
    is, and its later copies are the only elements that go. *)
Theorem setSpread_first_occurrence (x : string) (l : list string) :
  setSpread (x :: l)
  = x :: setSpread (filter (fun y => negb (String.eqb x y)) l).
Proof.
  unfold setSpread. simpl. f_equal. apply setSpreadFrom_filter.
Qed.

Lemma setSpreadFrom_fixed (l seen : list string) :
  NoDup l -> (forall x, In x l -> ~ In x seen) ->
  setSpreadFrom seen l = l.
Proof.
  revert seen. induction l as [|y l IH]; intros seen Hnd Hfresh; simpl;
    [reflexivity|].
  inversion Hnd as [|? ? Hnotin Hnd']; subst.
  destruct (existsb (String.eqb y) seen) eqn:E.
  - apply seen_spec in E. exfalso. apply (Hfresh y); [left; reflexivity|exact E].
  - f_equal. apply IH; [exact Hnd'|].
    intros x Hx [-> | Hseen]; [contradiction|].
    apply (Hfresh x); [right; exact Hx|exact Hseen].
Qed.

Lemma normalizeUrl_fixed (url : string) :
  hasScheme url = true -> normalizeUrl url = url.
Proof.
  unfold hasScheme, normalizeUrl. intros H.
  apply orb_true_iff in H. destruct H as [-> | ->]; [reflexivity|].
  rewrite andb_false_r. reflexivity.
Qed.

Lemma normalizeUrl_hasScheme (url : string) :
  hasScheme (normalizeUrl url) = true.
Proof.
  destruct (hasScheme url) eqn:E.
  - rewrite normalizeUrl_fixed; exact E.
  - unfold hasScheme in E. apply orb_false_iff in E. destruct E as [E1 E2].
    unfold normalizeUrl. rewrite E1, E2. reflexivity.
Qed.

(** Every target of the run starts with [http://] or [https://]. *)
Theorem targets_have_scheme (given : list string) :
  Forall (fun url => hasScheme url = true) (urlsToAudit given).
Proof.
  unfold urlsToAudit. apply Forall_forall. intros u Hin.
  apply in_map_iff in Hin. destruct Hin as [x [<- _]].
  apply normalizeUrl_hasScheme.
Qed.

(** The targets are the normalised forms of the URLs given, and the list
    of targets is empty only when no URL was given. *)
Theorem targets_are_normalised_inputs (given : list string) :
  (forall u, In u (urlsToAudit given)
             <-> exists x, In x given /\ u = normalizeUrl x)
  /\ (urlsToAudit given = [] <-> given = [])
  /\ (List.length (urlsToAudit given) <= List.length given)%nat.
Proof.
  unfold urlsToAudit. split; [|split].
  - intros u. rewrite in_map_iff. split.
    + intros [x [<- Hin]]. exists x. split; [|reflexivity].
      apply (proj2 (setSpread_distinct given)). exact Hin.
    + intros [x [Hin ->]]. exists x. split; [reflexivity|].
      apply (proj2 (setSpread_distinct given)). exact Hin.
  - split.
    + destruct given as [|x l]; [reflexivity|].
      rewrite setSpread_first_occurrence. discriminate.
    + intros ->. reflexivity.
  - rewrite length_map.
    apply NoDup_incl_length; [apply setSpread_distinct|].
    intros x Hx. apply (proj2 (setSpread_distinct given)). exact Hx.
Qed.

(** A list without duplicates whose URLs all carry a scheme is left as
    it is. *)
Theorem clean_targets_unchanged (given : list string) :
  NoDup given ->
  Forall (fun url => hasScheme url = true) given ->
  urlsToAudit given = given.
Proof.
  intros Hnd Hscheme. unfold urlsToAudit, setSpread.
  rewrite setSpreadFrom_fixed by (auto; intros x _ []).
  rewrite <- (map_id given) at 2. apply map_ext_in.
  intros u Hin. apply normalizeUrl_fixed.
  rewrite Forall_forall in Hscheme. apply Hscheme. exact Hin.
Qed.

Lemma clean_targets_unchanged_witness :
  NoDup ["https://a.com"; "http://b.com"]
  /\ Forall (fun url => hasScheme url = true) ["https://a.com"; "http://b.com"]
  /\ urlsToAudit ["https://a.com"; "http://b.com"]
     = ["https://a.com"; "http://b.com"].
Proof.
  assert (Hnd : NoDup ["https://a.com"; "http://b.com"]).
  { constructor; [intros [H | []]; discriminate H|].
    constructor; [intros []|constructor]. }
  assert (Hs : Forall (fun url => hasScheme url = true)
                 ["https://a.com"; "http://b.com"]).
  { repeat constructor. }
  split; [exact Hnd|]. split; [exact Hs|].
  exact (clean_targets_unchanged ["https://a.com"; "http://b.com"] Hnd Hs).
Defined.

Lemma normalizeUrl_preimage (x u : string) :
  normalizeUrl x = u -> x = u \/ x = dropFirst 8 u.
Proof.
  unfold normalizeUrl.
  destruct (negb (startsWith "http://" x) && negb (startsWith "https://" x)).
  - intros <-. right. symmetry. exact (dropFirst_append "https://" x).
  - intros <-. left. reflexivity.
Qed.

(** A target occurs at most twice in the list: once for the URL as
    given with its scheme, once for the bare form that normalisation
    completes to it. *)
Theorem target_at_most_twice (given : list string) (u : string) :
  (count_occ string_dec (urlsToAudit given) u <= 2)%nat.
Proof.
  unfold urlsToAudit.
  assert (Hcount : forall d,
    count_occ string_dec (map normalizeUrl d) u
    = List.length (filter (fun x => String.eqb (normalizeUrl x) u) d)).
  { induction d as [|x d IH]; simpl; [reflexivity|].
    destruct (string_dec (normalizeUrl x) u) as [Heq | Hne].
    - rewrite Heq, String.eqb_refl. simpl. rewrite IH. reflexivity.
    - destruct (String.eqb_spec (normalizeUrl x) u); [contradiction|].
      exact IH. }
  rewrite Hcount.
  change 2%nat with (List.length [u; dropFirst 8 u]).
  apply NoDup_incl_length.
  - apply NoDup_filter, setSpread_distinct.
  - intros x Hx. apply filter_In in Hx. destruct Hx as [_ Heq].
    apply String.eqb_eq in Heq.
    destruct (normalizeUrl_preimage x u Heq) as [-> | ->]; simpl; tauto.
Qed.

End TargetList.

(** ** The lines of the URL file *)

Section UrlFile.

Lemma trimStart_idempotent (s : string) : trimStart (trimStart s) = trimStart s.
Proof.
  induction s as [|c s IH]; simpl; [reflexivity|].
  destruct (isWhiteSpace c) eqn:E; [exact IH|].
  simpl. rewrite E. reflexivity.
Qed.

Lemma trimEnd_cons (c : ascii) (s : string) :
  trimEnd (String c s)
  = match trimEnd s with
    | EmptyString => if isWhiteSpace c then EmptyString else String c EmptyString
    | rest => String c rest
    end.
Proof. reflexivity. Qed.

Lemma trimEnd_idempotent (s : string) : trimEnd (trimEnd s) = trimEnd s.
Proof.
  induction s as [|c s IH]; [reflexivity|].
  rewrite trimEnd_cons.
  destruct (trimEnd s) as [|d r] eqn:E.
  - destruct (isWhiteSpace c) eqn:Ec; [reflexivity|].
    simpl. rewrite Ec. reflexivity.
  - rewrite trimEnd_cons, IH. reflexivity.
Qed.

Lemma trimStart_trimEnd (s : string) :
  trimStart (trimEnd s) = trimEnd (trimStart s).
Proof.
  induction s as [|c s IH]; [reflexivity|].
  rewrite trimEnd_cons.
  destruct (isWhiteSpace c) eqn:Ec.
  - simpl trimStart at 2. rewrite Ec, <- IH.
    destruct (trimEnd s) as [|d r]; [reflexivity|].
    simpl. rewrite Ec. reflexivity.
  - simpl trimStart at 2. rewrite Ec, trimEnd_cons.
    destruct (trimEnd s) as [|d r]; simpl; rewrite Ec; reflexivity.
Qed.

Lemma trim_idempotent (s : string) : trim (trim s) = trim s.
Proof.
  unfold trim.
  rewrite (trimStart_trimEnd (trimStart s)), trimStart_idempotent.
  apply trimEnd_idempotent.
Qed.

Lemma trimStart_occurs (c : ascii) (s : string) :
  occurs c s = false -> occurs c (trimStart s) = false.
Proof.
  induction s as [|d s IH]; simpl; [reflexivity|].
  intros H. apply orb_false_iff in H. destruct H as [Hd Hs].
  destruct (isWhiteSpace d); [exact (IH Hs)|].
  simpl. rewrite Hd, Hs. reflexivity.
Qed.

Lemma trimEnd_occurs (c : ascii) (s : string) :
  occurs c s = false -> occurs c (trimEnd s) = false.
Proof.
  induction s as [|d s IH]; [reflexivity|].
  intros H. simpl in H. apply orb_false_iff in H. destruct H as [Hd Hs].
  rewrite trimEnd_cons. specialize (IH Hs).
  destruct (trimEnd s) as [|e r].
  - destruct (isWhiteSpace d); simpl; [reflexivity|].
    rewrite Hd. reflexivity.
  - simpl in *. rewrite Hd. exact IH.
Qed.

Lemma splitLines_pieces (content : string) :
  Forall (fun line => occurs newline line = false) (splitLines content).
Proof.
  induction content as [|c rest IH]; cbn [splitLines].
  - repeat constructor.
  - destruct (Ascii.eqb c newline) eqn:E.
    + constructor; [reflexivity|exact IH].
    + rewrite Ascii.eqb_sym in E.
      destruct (splitLines rest) as [|line lines].
      * constructor; [|constructor]. cbn [occurs].
        rewrite E. reflexivity.
      * inversion IH as [|? ? Hline Hlines]; subst.
        constructor; [|exact Hlines]. cbn [occurs].
        rewrite E. exact Hline.
Qed.

(** What is read from the file: no entry is empty or a comment, none
    has white space around it, none holds a line feed. *)
Theorem file_urls_are_clean (content : string) :
  Forall (fun url => url <> ""
                     /\ startsWith "#" url = false
                     /\ trim url = url
                     /\ occurs newline url = false)
         (urlsFromFile content).
Proof.
  unfold urlsFromFile. apply Forall_forall. intros url Hin.
  apply filter_In in Hin. destruct Hin as [Hin Hkept].
  apply in_map_iff in Hin. destruct Hin as [line [<- Hline]].
  unfold keptLine in Hkept. apply andb_true_iff in Hkept.
  destruct Hkept as [Hne Hhash].
  split; [|split; [|split]].
  - intros Heq. rewrite Heq in Hne. discriminate Hne.
  - apply negb_true_iff. exact Hhash.
  - apply trim_idempotent.
  - unfold trim. apply trimEnd_occurs, trimStart_occurs.
    pose proof (splitLines_pieces content) as Hall.
    rewrite Forall_forall in Hall. apply Hall. exact Hline.
Qed.

Lemma splitLines_line (line : string) :
  occurs newline line = false -> splitLines line = [line].
Proof.
  induction line as [|c line IH]; cbn [splitLines occurs]; [reflexivity|].
  intros H. apply orb_false_iff in H. destruct H as [Hc Hline].
  rewrite Ascii.eqb_sym, Hc, (IH Hline). reflexivity.
Qed.

Lemma splitLines_append (line rest : string) :
  occurs newline line = false ->
  splitLines (line ++ String newline rest) = line :: splitLines rest.
Proof.
  induction line as [|c line IH]; cbn [splitLines occurs append].
  - intros _. rewrite Ascii.eqb_refl. reflexivity.
  - intros H. apply orb_false_iff in H. destruct H as [Hc Hline].
    rewrite Ascii.eqb_sym, Hc, (IH Hline). reflexivity.
Qed.

(** Splitting undoes joining with line feeds. *)
Lemma splitLines_concat (lines : list string) :
  lines <> [] ->
  Forall (fun line => occurs newline line = false) lines ->
  splitLines (String.concat (String newline "") lines) = lines.
Proof.
  induction lines as [|line lines IH]; [congruence|].
  intros _ Hall. inversion Hall as [|? ? Hline Hrest]; subst.
  destruct lines as [|line' lines].
  - cbn [String.concat]. apply splitLines_line. exact Hline.
  - change (String.concat (String newline "") (line :: line' :: lines))
      with (line ++ String newline
                      (String.concat (String newline "") (line' :: lines))).
    rewrite splitLines_append by exact Hline.
    rewrite IH; [reflexivity|discriminate|exact Hrest].
Qed.

(** A file written one entry per line is read back as the entries that
    are kept, each trimmed, in the order of the lines; a line feed after
    the last line adds nothing. *)
Theorem file_lines_read_back (lines : list string) :
  lines <> [] ->
  Forall (fun line => occurs newline line = false) lines ->
  urlsFromFile (String.concat (String newline "") lines)
  = filter keptLine (map trim lines)
  /\ urlsFromFile (String.concat (String newline "") (lines ++ [""]))
     = filter keptLine (map trim lines).
Proof.
  intros Hne Hall. unfold urlsFromFile. split.
  - rewrite splitLines_concat by assumption. reflexivity.
  - rewrite splitLines_concat.
    + rewrite map_app, filter_app. simpl. apply app_nil_r.
    + destruct lines; discriminate.
    + apply Forall_app. split; [exact Hall|repeat constructor].
Qed.

Lemma file_lines_read_back_witness :
  ["a.com"; "  # staging"; " https://b.com "] <> []
  /\ Forall (fun line => occurs newline line = false)
            ["a.com"; "  # staging"; " https://b.com "]
  /\ urlsFromFile
       (String.concat (String newline "")
          ["a.com"; "  # staging"; " https://b.com "])
     = ["a.com"; "https://b.com"].
Proof.
  assert (Hne : ["a.com"; "  # staging"; " https://b.com "] <> [])
    by discriminate.
  assert (Hall : Forall (fun line => occurs newline line = false)
                   ["a.com"; "  # staging"; " https://b.com "])
    by (repeat constructor).
  split; [exact Hne|]. split; [exact Hall|].
  exact (proj1 (file_lines_read_back _ Hne Hall)).
Defined.

End UrlFile.

(** ** The number read from [--concurrent] *)

Section ConcurrentOption.

Lemma parseInt10_cases (s : string) :
  parseInt10 s
  = match trimStart s with
    | EmptyString => None
    | String c r =>
        if Ascii.eqb c "-" then option_map Z.opp (digitsValue None r)
        else if Ascii.eqb c "+" then digitsValue None r
        else digitsValue None (String c r)
    end.
Proof.
  unfold parseInt10. destruct (trimStart s) as [|c r]; [reflexivity|].
  destruct c as [[] [] [] [] [] [] [] []]; reflexivity.
Qed.

Lemma digitsValue_nonneg (s : string) :
  forall (acc : option Z) (n : Z),
    (forall a, acc = Some a -> 0 <= a) ->
    digitsValue acc s = Some n -> 0 <= n.
Proof.
  induction s as [|c s IH]; intros acc n Hacc; cbn [digitsValue].
  - exact (Hacc n).
  - destruct (isDigit c); [|exact (Hacc n)].
    apply IH. intros a Ha.
    apply (f_equal (fun o => match o with Some x => x | None => 0 end)) in Ha.
    cbv beta iota in Ha. subst a.
    pose proof (N2Z.is_nonneg (codeUnit c - 48)) as Hdigit.
    destruct acc as [a0|]; [specialize (Hacc a0 eq_refl)|]; lia.
Qed.

(** The window size is never zero, and it is at least 1 unless the
    value, after its leading white space, starts with a minus sign. *)
Theorem window_size_not_zero (concurrent : string) :
  concurrentAudits concurrent <> 0
  /\ ((forall r, trimStart concurrent <> String "-" r) ->
      1 <= concurrentAudits concurrent).
Proof.
  unfold concurrentAudits, numberOr. split.
  - destruct (parseInt10 concurrent) as [n|]; [|discriminate].
    destruct (Z.eqb_spec n 0); [discriminate|assumption].
  - intros Hsign. rewrite parseInt10_cases.
    destruct (trimStart concurrent) as [|c r]; [lia|].
    destruct (Ascii.eqb_spec c "-") as [-> | _]; [exfalso; exact (Hsign r eq_refl)|].
    assert (Hnn : forall t n, digitsValue None t = Some n -> 0 <= n).
    { intros t n. apply digitsValue_nonneg. intros a Ha. discriminate Ha. }
    destruct (Ascii.eqb c "+").
    + destruct (digitsValue None r) as [n|] eqn:E; [|lia].
      specialize (Hnn r n E). destruct (Z.eqb_spec n 0); lia.
    + destruct (digitsValue None (String c r)) as [n|] eqn:E; [|lia].
      specialize (Hnn _ n E). destruct (Z.eqb_spec n 0); lia.
Qed.

Lemma window_size_not_zero_witness :
  (forall r, trimStart " 4 workers" <> String "-" r)
  /\ 1 <= concurrentAudits " 4 workers".
Proof.
  assert (H : forall r, trimStart " 4 workers" <> String "-" r)
    by (intros r Heq; discriminate Heq).
  split; [exact H|].
  exact (proj2 (window_size_not_zero " 4 workers") H).
Defined.

Lemma digitsValue_prefix (d rest : string) :
  match rest with
  | EmptyString => True
  | String c _ => isDigit c = false
  end ->
  allDigits d = true ->
  forall acc, digitsValue acc (d ++ rest) = digitsValue acc d.
Proof.
  intros Hrest. induction d as [|c d IH]; intros Hd acc.
  - simpl. destruct rest as [|c r]; [reflexivity|].
    simpl. rewrite Hrest. reflexivity.
  - simpl in Hd. apply andb_true_iff in Hd. destruct Hd as [Hc Hd].
    simpl. rewrite Hc. apply IH. exact Hd.
Qed.

Lemma isDigit_not_space (c : ascii) :
  isDigit c = true ->
  isWhiteSpace c = false /\ Ascii.eqb c "-" = false /\ Ascii.eqb c "+" = false.
Proof.
  destruct c as [[] [] [] [] [] [] [] []]; intros H;
    try discriminate H; repeat split.
Qed.

(** Digits followed by something else are read as the digits alone:
    [--concurrent 5x] and [--concurrent 2.5] count as 5 and 2. *)
Theorem window_size_reads_leading_digits (d rest : string) :
  d <> "" ->
  allDigits d = true ->
  match rest with
  | EmptyString => True
  | String c _ => isDigit c = false
  end ->
  concurrentAudits (d ++ rest) = concurrentAudits d.
Proof.
  intros Hne Hd Hrest. unfold concurrentAudits. f_equal.
  rewrite !parseInt10_cases.
  destruct d as [|c d]; [congruence|].
  simpl in Hd. apply andb_true_iff in Hd. destruct Hd as [Hc Hd].
  destruct (isDigit_not_space c Hc) as [Hws [Hminus Hplus]].
  cbn [append trimStart]. rewrite Hws, Hminus, Hplus.
  apply (digitsValue_prefix (String c d) rest Hrest).
  simpl. rewrite Hc. exact Hd.
Qed.

Lemma window_size_reads_leading_digits_witness :
  "5" <> "" /\ allDigits "5" = true
  /\ concurrentAudits "5x" = concurrentAudits "5"
  /\ concurrentAudits "2.5" = 2.
Proof.
  split; [discriminate|]. split; [reflexivity|]. split.
  - exact (window_size_reads_leading_digits "5" "x" ltac:(discriminate)
             eq_refl eq_refl).
  - exact (window_size_reads_leading_digits "2" ".5" ltac:(discriminate)
             eq_refl eq_refl).
Defined.

End ConcurrentOption.

(** ** The debugging port *)

Section Port.

Lemma spanDigits_spec (s : string) :
  s = fst (spanDigits s) ++ snd (spanDigits s)
  /\ allDigits (fst (spanDigits s)) = true
  /\ match snd (spanDigits s) with
     | EmptyString => True
     | String c _ => isDigit c = false
     end.
Proof.
  induction s as [|c s IH]; simpl.
  - repeat split.
  - destruct (isDigit c) eqn:Ec.
    + destruct (spanDigits s) as [d r]. simpl in *.
      destruct IH as [Hs [Hd Hr]]. rewrite Ec, Hd. rewrite <- Hs. repeat split.
      exact Hr.
    + simpl. repeat split. exact Ec.
Qed.

Lemma spanDigits_digits (d rest : string) :
  allDigits d = true ->
  match rest with
  | EmptyString => True
  | String c _ => isDigit c = false
  end ->
  spanDigits (d ++ rest) = (d, rest).
Proof.
  intros Hd Hrest. induction d as [|c d IH]; simpl.
  - destruct rest as [|c r]; [reflexivity|]. simpl. rewrite Hrest. reflexivity.
  - simpl in Hd. apply andb_true_iff in Hd. destruct Hd as [Hc Hd].
    rewrite Hc, (IH Hd). reflexivity.
Qed.

(** What [portMatch] finds stands in the endpoint between a colon and a
    slash, and is a run of digits that is not empty. *)
Lemma portMatch_sound (s p : string) :
  portMatch s = Some p ->
  p <> "" /\ allDigits p = true
  /\ exists pre post, s = pre ++ ":" ++ p ++ "/" ++ post.
Proof.
  induction s as [|c s IH]; simpl; [discriminate|].
  assert (Hskip : portMatch s = Some p ->
                  p <> "" /\ allDigits p = true
                  /\ exists pre post,
                       String c s = pre ++ ":" ++ p ++ "/" ++ post).
  { intros H. destruct (IH H) as [Hne [Hd [pre [post ->]]]].
    split; [exact Hne|]. split; [exact Hd|].
    exists (String c pre), post. reflexivity. }
  destruct (Ascii.eqb_spec c ":") as [-> | _]; [|exact Hskip].
  destruct (spanDigits_spec s) as [Hs [Hd Hr]].
  destruct (spanDigits s) as [d r]. simpl in Hs, Hd, Hr.
  destruct d as [|d0 d]; [exact Hskip|].
  destruct r as [|r0 r]; [exact Hskip|].
  destruct (Ascii.eqb_spec r0 "/") as [-> | Hne].
  - intros Heq. injection Heq as <-.
    split; [discriminate|]. split; [exact Hd|].
    exists "", r. rewrite Hs. reflexivity.
  - destruct r0 as [[] [] [] [] [] [] [] []]; try exact Hskip.
    exfalso. apply Hne. reflexivity.
Qed.

(** The port given to the auditor is always a number: digits, and at
    least one. *)
Theorem port_is_numeric (wsEndpoint : string) :
  portOf wsEndpoint <> "" /\ allDigits (portOf wsEndpoint) = true.
Proof.
  unfold portOf. destruct (portMatch wsEndpoint) as [p|] eqn:E.
  - destruct (portMatch_sound _ _ E) as [Hne [Hd _]]. split; assumption.
  - split; [discriminate|reflexivity].
Qed.

(** An endpoint of the usual form: after a part in which no colon is
    followed by a digit, a colon, the port and a slash. *)
Theorem port_of_endpoint (pre port post : string) :
  noPortStart pre = true ->
  port <> "" ->
  allDigits port = true ->
  portOf (pre ++ ":" ++ port ++ "/" ++ post) = port.
Proof.
  intros Hpre Hne Hd. unfold portOf.
  assert (Hmatch : portMatch (pre ++ ":" ++ port ++ "/" ++ post) = Some port).
  { induction pre as [|c pre IH].
    - cbn [append portMatch]. rewrite Ascii.eqb_refl.
      rewrite (spanDigits_digits port (String "/" post) Hd eq_refl).
      destruct port; [congruence|]. reflexivity.
    - cbn [noPortStart] in Hpre. apply andb_true_iff in Hpre.
      destruct Hpre as [Hc Hpre].
      cbn [append portMatch].
      destruct (Ascii.eqb c ":"); [|exact (IH Hpre)].
      destruct pre as [|e pre]; [discriminate Hc|].
      apply negb_true_iff in Hc.
      cbn [append spanDigits]. rewrite Hc. exact (IH Hpre). }
  rewrite Hmatch. reflexivity.
Qed.

Lemma port_of_endpoint_witness :
  noPortStart "ws://127.0.0.1" = true
  /\ "9333" <> ""
  /\ allDigits "9333" = true
  /\ portOf "ws://127.0.0.1:9333/devtools/browser/4f2a" = "9333".
Proof.
  split; [reflexivity|]. split; [discriminate|]. split; [reflexivity|].
  exact (port_of_endpoint "ws://127.0.0.1" "9333" "devtools/browser/4f2a"
           eq_refl ltac:(discriminate) eq_refl).
Defined.

(** An endpoint without a colon followed by digits and a slash, as
    [ws://chrome:3000], gives the port 9222. *)
Theorem port_defaults_without_match (wsEndpoint : string) :
  (forall pre p post,
     p <> "" -> allDigits p = true ->
     wsEndpoint <> pre ++ ":" ++ p ++ "/" ++ post) ->
  portOf wsEndpoint = "9222".
Proof.
  intros Hno. unfold portOf.
  destruct (portMatch wsEndpoint) as [p|] eqn:E; [|reflexivity].
  destruct (portMatch_sound _ _ E) as [Hne [Hd [pre [post Heq]]]].
  exfalso. exact (Hno pre p post Hne Hd Heq).
Qed.

Lemma occurs_append (c : ascii) (a b : string) :
  occurs c (a ++ b) = occurs c a || occurs c b.
Proof.
  induction a as [|d a IH]; cbn [append occurs]; [reflexivity|].
  rewrite IH. apply orb_assoc.
Qed.

Lemma port_defaults_without_match_witness :
  portOf "chrome:3000" = "9222".
Proof.
  apply (port_defaults_without_match "chrome:3000").
  intros pre p post _ _ Heq.
  apply (f_equal (occurs "/")) in Heq.
  rewrite !occurs_append in Heq. cbn [occurs] in Heq.
  rewrite Ascii.eqb_refl, !orb_true_r in Heq. discriminate Heq.
Defined.

End Port.

(** ** What an invocation returns *)

Section InvokerResults.

Context {W : Type}.
Variable h : Host W.
Variable values : Values.

(** A result has either an output path or an error, never both and
    never neither, and the path is the one derived from its URL. *)
Theorem result_has_path_or_error (url wsEndpoint : string) (s : State W) :
  exists r s',
    runLighthouseForUrl h values url wsEndpoint s = Some (Normal r, s')
    /\ ((result_success r = true
         /\ result_outputPath r = Some (outputPathOf h values url)
         /\ result_error r = None)
        \/ (result_success r = false
            /\ result_outputPath r = None
            /\ exists e, result_error r = Some e)).
Proof.
  rewrite runLighthouseForUrl_outcome. cbv zeta.
  destruct (spawnSync h (lighthouseCmd h values url wsEndpoint) wsEndpoint
              (world s)) as [[result | message] w].
  - eexists; eexists. split; [reflexivity|].
    destruct (exitCode result =? 0).
    + left. repeat split.
    + right. repeat split. eexists. reflexivity.
  - eexists; eexists. split; [reflexivity|].
    right. repeat split. eexists. reflexivity.
Qed.

(** An exit code other than 0 gives a failed result that carries what
    the auditor wrote to its standard error. *)
Theorem auditor_failure_is_reported (url wsEndpoint : string) (s : State W)
  (result : SpawnResult) (w : W) :
  spawnSync h (lighthouseCmd h values url wsEndpoint) wsEndpoint (world s)
  = (Returned result, w) ->
  exitCode result <> 0 ->
  runLighthouseForUrl h values url wsEndpoint s
  = Some (Normal (failed url (stderr result)),
          {| world := w; browser := browser s;
             trace := trace s
                      ++ [EvSpawn (lighthouseCmd h values url wsEndpoint)] |}).
Proof.
  intros Hspawn Hcode. rewrite runLighthouseForUrl_outcome. cbv zeta.
  rewrite Hspawn. destruct (Z.eqb_spec (exitCode result) 0); [contradiction|].
  reflexivity.
Qed.

End InvokerResults.

Lemma auditor_failure_is_reported_witness :
  exitCode {| exitCode := 1;
              stderr := "Runtime error: NO_FCP" ++ String newline "at run" |}
  <> 0
  /\ exists s',
       runLighthouseForUrl Scenario.failing Example.values "https://a.com"
                           "ws://chrome:3000/" (initial [])
       = Some (Normal (failed "https://a.com"
                         ("Runtime error: NO_FCP" ++ String newline "at run")),
               s').
Proof.
  split; [discriminate|]. eexists.
  apply (auditor_failure_is_reported Scenario.failing Example.values
           "https://a.com" "ws://chrome:3000/" (initial [])
           {| exitCode := 1;
              stderr := "Runtime error: NO_FCP" ++ String newline "at run" |}
           []).
  - reflexivity.
  - discriminate.
Defined.

(** ** The events of a batch *)

Section BatchEvents.

Context {W : Type}.
Variable h : Host W.
Variable values : Values.

Lemma mapAsync_events (wsEndpoint : string) (chunk : list string) :
  forall s : State W,
  exists rs w,
    mapAsync (fun url => runLighthouseForUrl h values url wsEndpoint) chunk s
    = Some (Normal (map Fulfilled rs),
            {| world := w; browser := browser s;
               trace := trace s
                        ++ map (fun url =>
                                  EvSpawn (lighthouseCmd h values url wsEndpoint))
                               chunk |})
    /\ map result_url rs = chunk.
Proof.
  induction chunk as [|url chunk IH]; intros s.
  - exists [], (world s). simpl. unfold ret. rewrite app_nil_r.
    destruct s; split; reflexivity.
  - destruct (runLighthouseForUrl_returns h values url wsEndpoint s)
      as [r [w1 [Hrun Hurl]]].
    simpl mapAsync. rewrite Hrun.
    match goal with
    | |- context [bind _ _ ?s1] => destruct (IH s1) as [rs [w [Hmap Hurls]]]
    end.
    exists (r :: rs), w.
    unfold bind. rewrite Hmap. simpl. unfold ret.
    rewrite <- app_assoc. simpl. split; [reflexivity|].
    rewrite Hurl, Hurls. reflexivity.
Qed.

Lemma chunkLoop_events (urls : list string) (chunkSize : Z)
  (wsEndpoint : string) :
  0 < chunkSize ->
  forall (fuel : nat) (i : Z) (results : list AuditResult) (s : State W),
    0 <= i ->
    Z.max 0 (Z.of_nat (List.length urls) - i) < Z.of_nat fuel ->
    exists rs w,
      chunkLoop h values fuel urls chunkSize wsEndpoint i results s
      = Some (Normal rs,
              {| world := w; browser := browser s;
                 trace := trace s
                          ++ batchEvents
                               (fun url => lighthouseCmd h values url wsEndpoint)
                               (chunksOf (List.length urls)
                                  (Z.to_nat chunkSize)
                                  (skipn (Z.to_nat i) urls)) |}).
Proof.
  intros Hsize. induction fuel as [|fuel IH]; intros i results s Hi Hfuel;
    [lia|].
  rewrite chunkLoop_step.
  destruct (Z.ltb_spec i (Z.of_nat (List.length urls))) as [Hin|Hout].
  - cbv zeta. unfold bind at 1. unfold emit at 1.
    match goal with
    | |- context [bind (mapAsync ?f ?c) _ ?s1] =>
        destruct (mapAsync_events wsEndpoint c s1) as [rs1 [w1 [Hmap _]]]
    end.
    unfold bind at 1. rewrite Hmap.
    unfold bind at 1. unfold awaitAll. rewrite promiseAll_fulfilled.
    match goal with
    | |- context [chunkLoop _ _ _ _ _ _ ?i' ?r' ?s'] =>
        destruct (IH i' r' s') as [rs2 [w2 Hloop]]; [lia|lia|]
    end.
    rewrite Hloop. exists rs2, w2. simpl. f_equal. f_equal. f_equal.
    rewrite <- !app_assoc. f_equal.
    rewrite slice_window by lia.
    assert (Hskip : skipn (Z.to_nat (i + chunkSize)) urls
                    = skipn (Z.to_nat chunkSize) (skipn (Z.to_nat i) urls)).
    { rewrite skipn_skipn. f_equal. lia. }
    rewrite Hskip.
    destruct (skipn (Z.to_nat i) urls) as [|x rest] eqn:Hrest.
    + assert (Hlen : List.length (skipn (Z.to_nat i) urls) = 0%nat)
        by (rewrite Hrest; reflexivity).
      rewrite length_skipn in Hlen. lia.
    + assert (Hlen : List.length (skipn (Z.to_nat i) urls)
                     = S (List.length rest))
        by (rewrite Hrest; reflexivity).
      rewrite length_skipn in Hlen.
      rewrite (chunksOf_fuel (Z.to_nat chunkSize) ltac:(lia)
                 (List.length urls) (S (List.length rest)) (x :: rest))
        by (cbn [List.length]; lia).
      rewrite chunksOf_cons. unfold batchEvents. cbn [flat_map].
      rewrite (chunksOf_fuel (Z.to_nat chunkSize) ltac:(lia)
                 (List.length rest) (List.length urls)
                 (skipn (Z.to_nat chunkSize) (x :: rest)))
        by (rewrite length_skipn; cbn [List.length]; lia).
      reflexivity.
  - exists results, (world s). unfold ret.
    rewrite skipn_all2 by lia. rewrite chunksOf_nil.
    unfold batchEvents. simpl. rewrite app_nil_r. destruct s; reflexivity.
Qed.

Lemma spawned_app (t1 t2 : list Event) :
  spawned (t1 ++ t2) = (spawned t1 ++ spawned t2)%list.
Proof.
  induction t1 as [|e t1 IH]; [reflexivity|].
  destruct e; simpl; rewrite IH; reflexivity.
Qed.

Lemma spawned_batchEvents (cmd : string -> list string)
  (wins : list (list string)) :
  spawned (batchEvents cmd wins) = map cmd (concat wins).
Proof.
  unfold batchEvents. induction wins as [|win wins IH]; [reflexivity|].
  cbn [flat_map concat]. rewrite map_app, <- IH.
  change (EvBatch win :: map (fun url => EvSpawn (cmd url)) win)
    with ([EvBatch win] ++ map (fun url => EvSpawn (cmd url)) win)%list.
  rewrite <- app_assoc, !spawned_app. simpl. f_equal.
  clear IH. induction win as [|u win IHw]; [reflexivity|].
  simpl. rewrite IHw. reflexivity.
Qed.

(** The events of a batch with a positive chunk size are, window after
    window, the announcement of the window followed by one start of the
    auditor for each of its targets: no audit of a window starts before
    the window is announced, nor after the next one is. *)
Theorem batch_events_in_order (urls : list string) (chunkSize : Z)
  (wsEndpoint : string) (fuel : nat) (s : State W) :
  0 < chunkSize ->
  (List.length urls < fuel)%nat ->
  exists results w,
    processUrlsInChunks h values fuel urls chunkSize wsEndpoint s
    = Some (Normal results,
            {| world := w; browser := browser s;
               trace := trace s
                        ++ batchEvents
                             (fun url => lighthouseCmd h values url wsEndpoint)
                             (chunksOf (List.length urls) (Z.to_nat chunkSize)
                                       urls) |}).
Proof.
  intros Hsize Hfuel.
  destruct (chunkLoop_events urls chunkSize wsEndpoint Hsize fuel 0 [] s)
    as [rs [w Hrun]]; [lia|lia|].
  exists rs, w. exact Hrun.
Qed.

(** The auditor is started once for each target, in the order of the
    targets, with the target as the first argument after the
    executable. *)
Theorem auditor_started_once_per_target (urls : list string) (chunkSize : Z)
  (wsEndpoint : string) (fuel : nat) (s : State W) :
  0 < chunkSize ->
  (List.length urls < fuel)%nat ->
  exists results s',
    processUrlsInChunks h values fuel urls chunkSize wsEndpoint s
    = Some (Normal results, s')
    /\ spawned (trace s')
       = (spawned (trace s)
          ++ map (fun url => lighthouseCmd h values url wsEndpoint) urls)%list
    /\ map (fun cmd => nth_error cmd 1)
           (map (fun url => lighthouseCmd h values url wsEndpoint) urls)
       = map Some urls.
Proof.
  intros Hsize Hfuel.
  destruct (batch_events_in_order urls chunkSize wsEndpoint fuel s Hsize Hfuel)
    as [results [w Hrun]].
  eexists; eexists. split; [exact Hrun|]. simpl. split.
  - rewrite spawned_app, spawned_batchEvents.
    rewrite chunksOf_concat by lia. reflexivity.
  - rewrite map_map. apply map_ext. intros url. reflexivity.
Qed.

End BatchEvents.

Lemma batch_events_in_order_witness :
  0 < 2
  /\ (List.length ["u1"; "u2"; "u3"] < 4)%nat
  /\ exists results s',
       processUrlsInChunks Example.working Example.values 4
         ["u1"; "u2"; "u3"] 2 "ws://chrome:3000/" (initial [])
       = Some (Normal results, s')
       /\ trace s'
          = [ EvBatch ["u1"; "u2"];
              EvSpawn (lighthouseCmd Example.working Example.values "u1"
                         "ws://chrome:3000/");
              EvSpawn (lighthouseCmd Example.working Example.values "u2"
                         "ws://chrome:3000/");
              EvBatch ["u3"];
              EvSpawn (lighthouseCmd Example.working Example.values "u3"
                         "ws://chrome:3000/") ].
Proof.
  split; [lia|]. split; [simpl; lia|].
  destruct (batch_events_in_order Example.working Example.values
              ["u1"; "u2"; "u3"] 2 "ws://chrome:3000/" 4 (initial []))
    as [results [w Hrun]]; [lia|simpl; lia|].
  eexists; eexists. split; [exact Hrun|]. reflexivity.
Defined.

Lemma auditor_started_once_per_target_witness :
  0 < 2
  /\ (List.length ["u1"; "u2"; "u3"] < 4)%nat
  /\ exists results s',
       processUrlsInChunks Example.working Example.values 4
         ["u1"; "u2"; "u3"] 2 "ws://chrome:3000/" (initial [])
       = Some (Normal results, s')
       /\ map (fun cmd => nth_error cmd 1) (spawned (trace s'))
          = [Some "u1"; Some "u2"; Some "u3"].
Proof.
  split; [lia|]. split; [simpl; lia|].
  destruct (auditor_started_once_per_target Example.working Example.values
              ["u1"; "u2"; "u3"] 2 "ws://chrome:3000/" 4 (initial []))
    as [results [s' [Hrun [Hspawned Hurls]]]]; [lia|simpl; lia|].
  exists results, s'. split; [exact Hrun|].
  rewrite Hspawned. exact Hurls.
Defined.

(** ** The number of windows *)

Section WindowCount.

Context {A : Type}.

Lemma chunksOf_count (size : nat) :
  (0 < size)%nat ->
  forall (fuel : nat) (l : list A),
    (List.length l <= fuel)%nat ->
    List.length (chunksOf fuel size l)
    = ((List.length l + size - 1) / size)%nat.
Proof.
  intros Hsize. induction fuel as [|fuel IH]; intros l Hl.
  - destruct l; [|simpl in Hl; lia].
    simpl. symmetry. apply Nat.div_small. lia.
  - destruct l as [|x l].
    + simpl. symmetry. apply Nat.div_small. lia.
    + rewrite chunksOf_cons. cbn [List.length].
      rewrite IH by (rewrite length_skipn; cbn [List.length] in *; lia).
      rewrite length_skipn. cbn [List.length].
      destruct (Nat.le_gt_cases (S (List.length l)) size) as [Hfew|Hmany].
      * replace (S (List.length l) - size + size - 1)%nat with (size - 1)%nat
          by lia.
        rewrite Nat.div_small by lia.
        apply (Nat.div_unique _ _ 1%nat (List.length l)); lia.
      * replace (S (List.length l) + size - 1)%nat
          with (S (List.length l) - size + size - 1 + 1 * size)%nat by lia.
        rewrite Nat.div_add by lia. lia.
Qed.

Lemma chunksOf_single (size : nat) (l : list A) :
  l <> [] -> (List.length l <= size)%nat ->
  chunksOf (List.length l) size l = [l].
Proof.
  intros Hne Hsize. destruct l as [|x l]; [congruence|].
  cbn [List.length]. rewrite chunksOf_cons.
  rewrite firstn_all2 by exact Hsize.
  rewrite skipn_all2 by exact Hsize.
  rewrite chunksOf_nil. reflexivity.
Qed.

End WindowCount.

Section BatchShape.

Context {W : Type}.
Variable h : Host W.
Variable values : Values.

(** The batch runs as many windows as the log line announces, the
    number of targets divided by the chunk size and rounded up; when the
    chunk size covers the whole list there is one window with all of
    it. *)
Theorem window_count (urls : list string) (chunkSize : Z)
  (wsEndpoint : string) (fuel : nat) (s : State W) :
  0 < chunkSize ->
  (List.length urls < fuel)%nat ->
  exists results t w,
    processUrlsInChunks h values fuel urls chunkSize wsEndpoint s
    = Some (Normal results,
            {| world := w; browser := browser s; trace := trace s ++ t |})
    /\ Z.of_nat (List.length (windows t))
       = (Z.of_nat (List.length urls) + chunkSize - 1) / chunkSize
    /\ (urls <> [] -> Z.of_nat (List.length urls) <= chunkSize ->
        windows t = [urls]).
Proof.
  intros Hsize Hfuel.
  destruct (processUrlsInChunks_runs h values urls chunkSize wsEndpoint fuel s
              Hsize Hfuel) as [results [t [w [Hrun [_ [Hwin _]]]]]].
  exists results, t, w. split; [exact Hrun|]. rewrite Hwin. split.
  - rewrite chunksOf_count by lia.
    rewrite Nat2Z.inj_div, Nat2Z.inj_sub, Nat2Z.inj_add by lia.
    rewrite Z2Nat.id by lia. reflexivity.
  - intros Hne Hcover. apply chunksOf_single; [exact Hne|lia].
Qed.

End BatchShape.

Lemma window_count_witness :
  0 < 3
  /\ (List.length ["u1"; "u2"; "u3"; "u4"; "u5"; "u6"; "u7"] < 8)%nat
  /\ exists results s',
       processUrlsInChunks Example.working Example.values 8
         ["u1"; "u2"; "u3"; "u4"; "u5"; "u6"; "u7"] 3 "ws://chrome:3000/"
         (initial [])
       = Some (Normal results, s')
       /\ Z.of_nat (List.length (windows (trace s'))) = (7 + 3 - 1) / 3.
Proof.
  split; [lia|]. split; [simpl; lia|].
  destruct (window_count Example.working Example.values
              ["u1"; "u2"; "u3"; "u4"; "u5"; "u6"; "u7"] 3
              "ws://chrome:3000/" 8 (initial []))
    as [results [t [w [Hrun [Hcount _]]]]]; [lia|simpl; lia|].
  eexists; eexists. split; [exact Hrun|]. simpl. exact Hcount.
Defined.

(** ** The summary *)

Section Summary.

Lemma filter_both_lengths {A : Type} (f : A -> bool) (l : list A) :
  (List.length (filter f l) + List.length (filter (fun x => negb (f x)) l)
   = List.length l)%nat.
Proof.
  induction l as [|x l IH]; [reflexivity|].
  simpl. destruct (f x); simpl; lia.
Qed.

Lemma firstLine_one_line (s : string) : occurs newline (firstLine s) = false.
Proof.
  induction s as [|c s IH]; [reflexivity|].
  cbn [firstLine]. change (ascii_of_nat 10) with newline.
  destruct (Ascii.eqb c newline) eqn:E; [reflexivity|].
  cbn [occurs]. rewrite Ascii.eqb_sym, E. exact IH.
Qed.

Lemma firstLine_prefix (s : string) : exists rest, s = firstLine s ++ rest.
Proof.
  induction s as [|c s [rest IH]]; [exists ""; reflexivity|].
  cbn [firstLine]. destruct (Ascii.eqb c (ascii_of_nat 10)).
  - exists (String c s). reflexivity.
  - exists rest. cbn [append]. rewrite <- IH. reflexivity.
Qed.

(** What follows the first line is nothing, or starts with the line
    feed that ends it. *)
Lemma firstLine_cut (s : string) :
  exists rest,
    s = firstLine s ++ rest
    /\ (rest = "" \/ exists rest', rest = String newline rest').
Proof.
  induction s as [|c s [rest [IH Hrest]]].
  - exists "". split; [reflexivity|left; reflexivity].
  - cbn [firstLine]. change (ascii_of_nat 10) with newline.
    destruct (Ascii.eqb_spec c newline) as [-> | _].
    + exists (String newline s). split; [reflexivity|].
      right. exists s. reflexivity.
    + exists rest. split; [|exact Hrest].
      cbn [append]. rewrite <- IH. reflexivity.
Qed.

(** The summary counts every result once, as succeeded or as failed, and
    lists the failed ones in order: the i-th entry of the list belongs
    to the i-th failed result, carries its URL, and its text is the
    first line of the error of that same result (the error up to its
    first line feed). *)
Theorem summary_counts (results : list AuditResult) :
  exists successCount failCount failedUrls,
    summary results
    = EvSummary (List.length results) successCount failCount failedUrls
    /\ successCount = List.length (filter result_success results)
    /\ (successCount + failCount = List.length results)%nat
    /\ List.length failedUrls = failCount
    /\ Forall2
         (fun line r =>
            fst line = result_url r
            /\ occurs newline (snd line) = false
            /\ match result_error r with
               | Some e =>
                   exists rest,
                     e = snd line ++ rest
                     /\ (rest = "" \/ exists rest', rest = String newline rest')
               | None => snd line = ""
               end)
         failedUrls
         (filter (fun r => negb (result_success r)) results).
Proof.
  pose proof (filter_both_lengths result_success results) as Hlen.
  unfold summary. cbv zeta.
  set (failed := filter (fun r => negb (result_success r)) results) in *.
  assert (Hfail : (List.length results
                   - List.length (filter result_success results))%nat
                  = List.length failed) by lia.
  rewrite Hfail.
  assert (Hlines : (if (0 <? List.length failed)%nat
                    then map failedLine failed else [])
                   = map failedLine failed).
  { destruct failed; reflexivity. }
  rewrite Hlines.
  eexists; eexists; eexists. split; [reflexivity|].
  split; [reflexivity|]. split; [lia|]. split; [apply length_map|].
  clear. induction failed as [|r failed IH]; [constructor|].
  cbn [map]. constructor; [|exact IH].
  unfold failedLine. cbn [fst snd].
  split; [reflexivity|]. split; [apply firstLine_one_line|].
  destruct (result_error r) as [e|]; [|reflexivity].
  apply firstLine_cut.
Qed.

Lemma summary_counts_example :
  summary [ failed "https://a.com" ("first" ++ String newline "second");
            succeeded "https://b.com" "/work/reports/b_com.json";
            failed "https://c.com" "Output file not created" ]
  = EvSummary 3 1 2 [ ("https://a.com", "first");
                      ("https://c.com", "Output file not created") ].
Proof. reflexivity. Qed.

End Summary.

(** ** Local Chrome *)

Section LocalChrome.

Context {W : Type}.
Variable h : Host W.

Lemma find_first {A : Type} (f : A -> bool) (l : list A) :
  match find f l with
  | Some x =>
      exists before after,
        l = (before ++ x :: after)%list
        /\ f x = true
        /\ Forall (fun y => f y = false) before
  | None => Forall (fun y => f y = false) l
  end.
Proof.
  induction l as [|y l IH]; simpl; [constructor|].
  destruct (f y) eqn:E.
  - exists [], l. repeat split; [exact E|constructor].
  - destruct (find f l) as [x|].
    + destruct IH as [before [after [-> [Hx Hbefore]]]].
      exists (y :: before), after. repeat split; [exact Hx|].
      constructor; assumption.
    + constructor; assumption.
Qed.

(** The local Chrome found is the first candidate of the platform that
    exists; none is found when no candidate exists, and on a platform
    other than linux, darwin and win32. *)
Theorem local_chrome_is_first_candidate (s : State W) :
  exists found,
    isLocalChromeAvailable h s = Some (Normal found, s)
    /\ match found with
       | Some path =>
           exists before after,
             chromePaths (platform h) = (before ++ path :: after)%list
             /\ existsSync h path (world s) = true
             /\ Forall (fun p => existsSync h p (world s) = false) before
       | None =>
           Forall (fun p => existsSync h p (world s) = false)
                  (chromePaths (platform h))
       end
    /\ (platform h <> "linux" -> platform h <> "darwin" ->
        platform h <> "win32" -> found = None).
Proof.
  unfold isLocalChromeAvailable, readWorld.
  eexists. split; [reflexivity|]. split.
  - apply (find_first (fun path => existsSync h path (world s))).
  - intros Hlinux Hdarwin Hwin. unfold chromePaths.
    destruct (String.eqb_spec (platform h) "linux"); [contradiction|].
    destruct (String.eqb_spec (platform h) "darwin"); [contradiction|].
    destruct (String.eqb_spec (platform h) "win32"); [contradiction|].
    reflexivity.
Qed.

End LocalChrome.

(** ** Results of a whole batch *)

Section BatchResults.

Context {W : Type}.
Variable h : Host W.
Variable values : Values.
Variable P : AuditResult -> Prop.
Variable wsEndpoint : string.

Hypothesis invocation :
  forall url s r s',
    runLighthouseForUrl h values url wsEndpoint s = Some (Normal r, s') -> P r.

Lemma mapAsync_Forall (chunk : list string) :
  forall (s s' : State W) promises results,
    mapAsync (fun url => runLighthouseForUrl h values url wsEndpoint) chunk s
    = Some (Normal promises, s') ->
    promiseAll promises = Normal results ->
    Forall P results.
Proof.
  induction chunk as [|url chunk IH]; intros s s' promises results Hmap Hall.
  - simpl in Hmap. unfold ret in Hmap. injection Hmap as <- _.
    simpl in Hall. injection Hall as <-. constructor.
  - simpl in Hmap.
    destruct (runLighthouseForUrl h values url wsEndpoint s)
      as [[[r | m | code] s1]|] eqn:Hrun; try discriminate Hmap.
    + unfold bind, ret in Hmap.
      destruct (mapAsync _ chunk s1) as [[[ps | m | code] s2]|] eqn:Hrest;
        try discriminate Hmap.
      injection Hmap as <- _. simpl in Hall.
      destruct (promiseAll ps) as [bs | m | code] eqn:Hps;
        try discriminate Hall.
      injection Hall as <-. constructor.
      * exact (invocation url s r s1 Hrun).
      * exact (IH s1 s2 ps bs Hrest Hps).
    + unfold bind, ret in Hmap.
      destruct (mapAsync _ chunk s1) as [[[ps | m' | code] s2]|];
        try discriminate Hmap.
      injection Hmap as <- _. simpl in Hall. discriminate Hall.
Qed.

Lemma chunkLoop_Forall (urls : list string) (chunkSize : Z) :
  forall (fuel : nat) (i : Z) (results : list AuditResult) (s s' : State W)
         final,
    chunkLoop h values fuel urls chunkSize wsEndpoint i results s
    = Some (Normal final, s') ->
    Forall P results -> Forall P final.
Proof.
  induction fuel as [|fuel IH]; intros i results s s' final Hrun Hres;
    [discriminate Hrun|].
  rewrite chunkLoop_step in Hrun.
  destruct (i <? Z.of_nat (List.length urls)).
  - cbv zeta in Hrun. unfold bind, emit, awaitAll in Hrun.
    destruct (mapAsync _ _ _) as [[[ps | m | code] s1]|] eqn:Hmap;
      try discriminate Hrun.
    destruct (promiseAll ps) as [bs | m | code] eqn:Hps;
      try discriminate Hrun.
    apply (IH _ _ _ _ _ Hrun). apply Forall_app. split; [exact Hres|].
    exact (mapAsync_Forall _ _ _ _ _ Hmap Hps).
  - unfold ret in Hrun. injection Hrun as <- _. exact Hres.
Qed.

End BatchResults.

Section RunOutcomes.

Context {W : Type}.
Variable h : Host W.
Variable values : Values.

(** The [finally] block only adds to the trace. *)
Lemma finallyBlock_extends (s : State W) (b : string) :
  browser s = Some b ->
  exists s' t,
    finallyBlock h s = Some (Normal tt, s') /\ trace s' = (trace s ++ t)%list.
Proof.
  intros Hb. unfold finallyBlock, bind, getBrowser. rewrite Hb.
  unfold tryCatch, closeBrowser, call, emit.
  destruct (close h b (world s)) as [[[]|m] w]; eexists; eexists;
    (split; [reflexivity|]); simpl; [reflexivity|].
  rewrite <- app_assoc. reflexivity.
Qed.

(** A run in which no audit succeeds still completes normally: every
    target gets a failed result, and when the browser closes the summary
    reports no success and one failure per target, listed in the order
    of the targets. *)
Theorem failed_audits_are_summarised (fuel : nat) (urls : list string)
  (s s1 : State W) (b v : string) (w2 : W) :
  acquire h values s = Some (Normal b, s1) ->
  version h b (world s1) = (Returned v, w2) ->
  0 < concurrentAudits (concurrent values) ->
  (List.length urls < fuel)%nat ->
  (forall cmd ws w r w',
     spawnSync h cmd ws w = (Returned r, w') -> exitCode r <> 0) ->
  exists results s3,
    processUrlsInChunks h values fuel urls
      (concurrentAudits (concurrent values)) b
      {| world := w2; browser := browser s1; trace := trace s1 ++ [EvVersion] |}
    = Some (Normal results, s3)
    /\ map result_url results = urls
    /\ Forall (fun r => result_success r = false) results
    /\ forall u w4,
         close h b (world s3) = (Returned u, w4) ->
         exists s' failedUrls,
           runLighthouse h values fuel urls s = Some (Normal tt, s')
           /\ In (EvSummary (List.length urls) 0 (List.length urls) failedUrls)
                 (trace s')
           /\ map fst failedUrls = urls.
Proof.
  intros Hacq Hver Hsize Hfuel Hspawn.
  destruct (tryBlock_after_setup h values fuel urls s s1 b v w2
              Hacq Hver Hsize Hfuel)
    as [results [s3 [Hrun [Hurls [Hb [_ [_ Htry]]]]]]].
  assert (Hfailed : Forall (fun r => result_success r = false) results).
  { refine (chunkLoop_Forall h values (fun r => result_success r = false) b
              _ urls _ fuel 0 [] _ _ _ Hrun (Forall_nil _)).
    intros url s0 r s0' Hone.
    rewrite runLighthouseForUrl_outcome in Hone. cbv zeta in Hone.
    destruct (spawnSync h _ b (world s0)) as [[res | m] w] eqn:Hsp.
    - pose proof (Hspawn _ _ _ _ _ Hsp) as Hcode.
      destruct (Z.eqb_spec (exitCode res) 0); [contradiction|].
      injection Hone as <- _. reflexivity.
    - injection Hone as <- _. reflexivity. }
  exists results, s3. split; [exact Hrun|]. split; [exact Hurls|].
  split; [exact Hfailed|].
  intros u w4 Hclose.
  assert (Hnone : filter result_success results = []).
  { clear - Hfailed. induction Hfailed as [|r l Hr _ IH]; [reflexivity|].
    simpl. rewrite Hr. exact IH. }
  assert (Hall : filter (fun r => negb (result_success r)) results = results).
  { clear - Hfailed. induction Hfailed as [|r l Hr _ IH]; [reflexivity|].
    simpl. rewrite Hr. simpl. rewrite IH. reflexivity. }
  assert (Hlen : List.length results = List.length urls).
  { rewrite <- Hurls. symmetry. apply length_map. }
  assert (Hsummary :
    summary results
    = EvSummary (List.length urls) 0 (List.length urls)
                (map failedLine results)).
  { unfold summary. cbv zeta. rewrite Hnone, Hall. cbn [List.length].
    rewrite Nat.sub_0_r, Hlen. rewrite <- Hlen at 3.
    destruct results; reflexivity. }
  unfold runLighthouse, tryCatchFinally, tryCatch. rewrite Htry, Hclose.
  unfold andFinally.
  match goal with
  | |- context [finallyBlock h ?s4] =>
      destruct (finallyBlock_extends s4 b eq_refl) as [s' [t [Hfin Htrace]]]
  end.
  rewrite Hfin. exists s', (map failedLine results).
  split; [reflexivity|]. split.
  - rewrite Htrace. simpl. rewrite <- Hsummary.
    apply in_or_app. left. apply in_or_app. right. right. left. reflexivity.
  - rewrite map_map. exact Hurls.
Qed.

(** When the remote endpoint cannot be reached the run ends with exit
    code 1 before any audit: the auditor is never started and nothing is
    closed, whatever the targets. *)
Theorem unreachable_endpoint_aborts (fuel : nat) (urls : list string)
  (s : State W) (endpoint message : string) (w1 : W) :
  given (chromeEndpoint values) = Some endpoint ->
  connect h endpoint (world s) = (Raised message, w1) ->
  runLighthouse h values fuel urls s
  = Some (Exit 1,
          {| world := w1; browser := browser s;
             trace := trace s ++ [EvConnect endpoint; EvFatal message] |}).
Proof.
  intros Hgiven Hconnect.
  unfold runLighthouse, tryCatchFinally, tryCatch, tryBlock.
  unfold bind at 1. unfold acquire. rewrite Hgiven.
  unfold bind at 1. unfold call at 1. rewrite Hconnect.
  unfold catchBlock, bind, emit, exit, andFinally. simpl.
  rewrite <- app_assoc. reflexivity.
Qed.

(** Without an endpoint and without a local Chrome the run ends with
    exit code 1 at once: nothing is launched and no event is left. *)
Theorem no_local_chrome_aborts (fuel : nat) (urls : list string)
  (s : State W) :
  given (chromeEndpoint values) = None ->
  Forall (fun p => existsSync h p (world s) = false)
         (chromePaths (platform h)) ->
  runLighthouse h values fuel urls s = Some (Exit 1, s).
Proof.
  intros Hgiven Hnone.
  assert (Hfind : find (fun path => existsSync h path (world s))
                       (chromePaths (platform h)) = None).
  { induction Hnone as [|p l Hp _ IH]; [reflexivity|].
    simpl. rewrite Hp. exact IH. }
  unfold runLighthouse, tryCatchFinally, tryCatch, tryBlock.
  unfold bind at 1. unfold acquire. rewrite Hgiven.
  unfold bind at 1. unfold isLocalChromeAvailable, readWorld.
  rewrite Hfind. reflexivity.
Qed.

End RunOutcomes.

Lemma failed_audits_are_summarised_witness :
  0 < concurrentAudits (concurrent Example.values)
  /\ (List.length ["https://a.com"; "https://b.com"] < 3)%nat
  /\ exists s' failedUrls,
       runLighthouse Scenario.failing Example.values 3
                     ["https://a.com"; "https://b.com"] (initial [])
       = Some (Normal tt, s')
       /\ In (EvSummary 2 0 2 failedUrls) (trace s')
       /\ map fst failedUrls = ["https://a.com"; "https://b.com"].
Proof.
  split; [reflexivity|]. split; [simpl; lia|].
  destruct (failed_audits_are_summarised Scenario.failing Example.values 3
              ["https://a.com"; "https://b.com"] (initial [])
              {| world := []; browser := Some "ws://chrome:3000/";
                 trace := [EvConnect "ws://chrome:3000/"] |}
              "ws://chrome:3000/" "Chrome/120" []
              eq_refl eq_refl eq_refl ltac:(simpl; lia))
    as [results [s3 [_ [_ [_ Hend]]]]].
  - intros cmd ws w r w' Hsp. injection Hsp as <- _. discriminate.
  - destruct (Hend tt (world s3) eq_refl) as [s' [lines [Hrun Hsum]]].
    exists s', lines. split; [exact Hrun|exact Hsum].
Defined.

Lemma unreachable_endpoint_aborts_witness :
  given (chromeEndpoint Example.values) = Some "ws://chrome:3000/"
  /\ runLighthouse Scenario.unreachable Example.values 0 ["https://a.com"]
                   (initial [])
     = Some (Exit 1,
             {| world := []; browser := None;
                trace := [ EvConnect "ws://chrome:3000/";
                           EvFatal "connect ECONNREFUSED" ] |}).
Proof.
  split; [reflexivity|].
  exact (unreachable_endpoint_aborts Scenario.unreachable Example.values 0
           ["https://a.com"] (initial []) "ws://chrome:3000/"
           "connect ECONNREFUSED" [] eq_refl eq_refl).
Defined.

Lemma no_local_chrome_aborts_witness :
  given (chromeEndpoint Scenario.localValues) = None
  /\ runLighthouse Example.working Scenario.localValues 5 ["https://a.com"]
                   (initial [])
     = Some (Exit 1, initial []).
Proof.
  split; [reflexivity|].
  apply (no_local_chrome_aborts Example.working Scenario.localValues 5
           ["https://a.com"] (initial []) eq_refl).
  repeat constructor.
Defined.

Lemma version_failure_skips_close_witness :
  exists s',
    runLighthouse Scenario.mute Example.values 5 ["https://a.com"] (initial [])
    = Some (Exit 1, s')
    /\ closeCalls (trace s') = 0%nat
    /\ browser s' = Some "ws://chrome:3000/".
Proof.
  destruct (version_failure_skips_close Scenario.mute Example.values 5
              ["https://a.com"] (initial [])
              {| world := []; browser := Some "ws://chrome:3000/";
                 trace := [EvConnect "ws://chrome:3000/"] |}
              "ws://chrome:3000/" "Protocol error" [] eq_refl eq_refl)
    as [s' [Hrun Hcalls]].
  exists s'. split; [exact Hrun|]. split; [exact Hcalls|].
  vm_compute in Hrun. injection Hrun as <-. reflexivity.
Defined.

(** ** Where the reports go *)

Section ReportPath.

Lemma append_empty (s : string) : s ++ "" = s.
Proof. induction s as [|c s IH]; simpl; [reflexivity|]. rewrite IH. reflexivity. Qed.

Lemma append_assoc3 (a b c : string) : (a ++ b) ++ c = a ++ (b ++ c).
Proof. induction a as [|x a IH]; simpl; [reflexivity|]. rewrite IH. reflexivity. Qed.

Lemma segments_piece (a rest : string) :
  occurs "/" a = false ->
  forall cur,
    Path.segments cur (a ++ String "/" rest)
    = (cur ++ a) :: Path.segments "" rest.
Proof.
  induction a as [|c a IH]; intros Ha cur.
  - cbn [append Path.segments]. rewrite Ascii.eqb_refl, append_empty.
    reflexivity.
  - cbn [occurs] in Ha. apply orb_false_iff in Ha. destruct Ha as [Hc Ha].
    cbn [append Path.segments]. rewrite Ascii.eqb_sym, Hc.
    rewrite (IH Ha), append_assoc3. reflexivity.
Qed.

Lemma segments_end (a : string) :
  occurs "/" a = false ->
  forall cur, Path.segments cur a = [cur ++ a].
Proof.
  induction a as [|c a IH]; intros Ha cur.
  - cbn [Path.segments]. rewrite append_empty. reflexivity.
  - cbn [occurs] in Ha. apply orb_false_iff in Ha. destruct Ha as [Hc Ha].
    cbn [Path.segments]. rewrite Ascii.eqb_sym, Hc.
    rewrite (IH Ha), append_assoc3. reflexivity.
Qed.

Lemma segments_no_slash (s : string) :
  forall cur,
    occurs "/" cur = false ->
    Forall (fun seg => occurs "/" seg = false) (Path.segments cur s).
Proof.
  induction s as [|c s IH]; intros cur Hcur; cbn [Path.segments].
  - repeat constructor. exact Hcur.
  - destruct (Ascii.eqb c "/") eqn:E.
    + constructor; [exact Hcur|]. apply IH. reflexivity.
    + apply IH. rewrite occurs_append, Hcur. cbn [occurs].
      rewrite Ascii.eqb_sym, E. reflexivity.
Qed.

Lemma pushSegment_clean (stack : list string) (seg : string) :
  cleanSegment seg = true -> Path.pushSegment stack seg = seg :: stack.
Proof.
  unfold cleanSegment, Path.pushSegment. intros H.
  apply andb_true_iff in H. destruct H as [H _].
  apply andb_true_iff in H. destruct H as [H Hdd].
  apply andb_true_iff in H. destruct H as [He Hd].
  apply negb_true_iff in He, Hd, Hdd. rewrite He, Hd, Hdd. reflexivity.
Qed.

Lemma fold_pushSegment_clean (segs : list string) :
  Forall (fun seg => cleanSegment seg = true) segs ->
  forall stack,
    fold_left Path.pushSegment segs stack = (rev segs ++ stack)%list.
Proof.
  induction 1 as [|seg segs Hseg _ IH]; intros stack; [reflexivity|].
  cbn [fold_left rev]. rewrite (pushSegment_clean stack seg Hseg), IH.
  rewrite <- app_assoc. reflexivity.
Qed.

Lemma fold_pushSegment_keeps (segs : list string) :
  Forall (fun seg => occurs "/" seg = false) segs ->
  forall stack,
    Forall (fun seg => cleanSegment seg = true) stack ->
    Forall (fun seg => cleanSegment seg = true)
           (fold_left Path.pushSegment segs stack).
Proof.
  induction 1 as [|seg segs Hseg _ IH]; intros stack Hstack; [exact Hstack|].
  cbn [fold_left]. apply IH. unfold Path.pushSegment.
  destruct (String.eqb seg "") eqn:He; [exact Hstack|].
  destruct (String.eqb seg ".") eqn:Hd; [exact Hstack|].
  cbn [orb].
  destruct (String.eqb seg "..") eqn:Hdd.
  - destruct Hstack; [constructor|assumption].
  - constructor; [|exact Hstack].
    unfold cleanSegment. rewrite He, Hd, Hdd, Hseg. reflexivity.
Qed.

(** A resolved path is a slash followed by clean names joined with
    slashes. *)
Lemma resolve_shape (cwd : string) (paths : list string) :
  exists segs,
    Path.resolve cwd paths = "/" ++ String.concat "/" segs
    /\ Forall (fun seg => cleanSegment seg = true) segs.
Proof.
  unfold Path.resolve, Path.normalizeAbsolute.
  eexists. split; [reflexivity|].
  apply Forall_rev. apply fold_pushSegment_keeps; [|constructor].
  apply segments_no_slash. reflexivity.
Qed.

Lemma segments_joined (segs : list string) (rest : string) :
  segs <> [] ->
  Forall (fun seg => occurs "/" seg = false) segs ->
  Path.segments "" (String.concat "/" segs ++ String "/" rest)
  = (segs ++ Path.segments "" rest)%list.
Proof.
  induction segs as [|seg segs IH]; [congruence|].
  intros _ Hall. inversion Hall as [|? ? Hseg Hrest]; subst.
  destruct segs as [|seg' segs].
  - cbn [String.concat]. rewrite segments_piece by exact Hseg. reflexivity.
  - change (String.concat "/" (seg :: seg' :: segs))
      with (seg ++ String "/" (String.concat "/" (seg' :: segs))).
    rewrite append_assoc3. cbn [append].
    rewrite segments_piece by exact Hseg.
    rewrite IH; [reflexivity|discriminate|exact Hrest].
Qed.

Lemma cleanSegment_parts (seg : string) :
  cleanSegment seg = true ->
  seg <> "" /\ occurs "/" seg = false /\ startsWith "/" seg = false.
Proof.
  unfold cleanSegment. intros H.
  apply andb_true_iff in H. destruct H as [H Hslash].
  apply andb_true_iff in H. destruct H as [H _].
  apply andb_true_iff in H. destruct H as [He _].
  apply negb_true_iff in He, Hslash.
  split; [intros ->; discriminate He|]. split; [exact Hslash|].
  destruct seg as [|c seg]; [reflexivity|].
  cbn [occurs] in Hslash. apply orb_false_iff in Hslash.
  destruct Hslash as [Hc _]. cbn [startsWith]. rewrite Hc. reflexivity.
Qed.

(** A clean name resolved against a resolved directory is that name
    inside the directory. *)
Lemma resolve_in_directory (cwd : string) (segs : list string) (file : string) :
  Forall (fun seg => cleanSegment seg = true) segs ->
  cleanSegment file = true ->
  Path.resolve cwd ["/" ++ String.concat "/" segs; file]
  = "/" ++ String.concat "/" (segs ++ [file]).
Proof.
  intros Hsegs Hfile.
  destruct (cleanSegment_parts file Hfile) as [Hne [Hslash Hrel]].
  unfold Path.resolve. cbn [rev app Path.joinFromRight].
  destruct (String.eqb_spec file "") as [Heq | _]; [contradiction|].
  rewrite Hrel.
  change (("/" ++ String.concat "/" segs =? "")%string) with false.
  change (startsWith "/" ("/" ++ String.concat "/" segs)) with true.
  cbv iota.
  change (("/" ++ String.concat "/" segs) ++ "/" ++ file ++ "/" ++ "")
    with (String "/" (String.concat "/" segs
                      ++ String "/" (file ++ String "/" ""))).
  unfold Path.normalizeAbsolute. f_equal. f_equal.
  cbn [Path.segments]. rewrite Ascii.eqb_refl.
  assert (Hnoslash : Forall (fun seg => occurs "/" seg = false) segs).
  { eapply Forall_impl; [|exact Hsegs].
    intros seg Hseg. apply (cleanSegment_parts seg Hseg). }
  assert (Htail : Path.segments "" (file ++ String "/" "") = [file; ""]).
  { rewrite segments_piece by exact Hslash. reflexivity. }
  assert (Hskip : forall stack, Path.pushSegment stack "" = stack)
    by reflexivity.
  destruct segs as [|seg segs].
  - cbn [String.concat append Path.segments]. rewrite Ascii.eqb_refl.
    rewrite Htail. cbn [fold_left].
    rewrite !Hskip, (pushSegment_clean [] file Hfile). reflexivity.
  - rewrite segments_joined by (try discriminate; exact Hnoslash).
    rewrite Htail. cbn [fold_left]. rewrite ?Hskip.
    rewrite fold_left_app, (fold_pushSegment_clean (seg :: segs) Hsegs).
    cbn [fold_left]. rewrite ?Hskip, (pushSegment_clean _ file Hfile).
    rewrite app_nil_r.
    rewrite <- (rev_involutive ((seg :: segs) ++ [file])). f_equal.
    rewrite rev_app_distr. reflexivity.
Qed.

Lemma allNameChars_occurs (c : ascii) (s : string) :
  isAlnum c = false -> Ascii.eqb c "_" = false ->
  allNameChars s = true -> occurs c s = false.
Proof.
  intros Hc Hu. induction s as [|d s IH]; [reflexivity|].
  cbn [allNameChars occurs]. intros H.
  apply andb_true_iff in H. destruct H as [Hd Hs].
  rewrite (IH Hs), orb_false_r.
  destruct (Ascii.eqb_spec c d) as [<- | _]; [|reflexivity].
  rewrite Hc in Hd. rewrite Ascii.eqb_sym in Hu.
  rewrite Ascii.eqb_sym, Hu in Hd. discriminate Hd.
Qed.

Lemma allNameChars_append (a b : string) :
  allNameChars (a ++ b) = allNameChars a && allNameChars b.
Proof.
  induction a as [|c a IH]; [reflexivity|].
  cbn [append allNameChars]. rewrite IH. apply andb_assoc.
Qed.

(** The file name of a report is a clean name when the format is made
    of letters, digits and underscores and is not empty. *)
Lemma report_name_clean (name format : string) :
  allNameChars name = true ->
  allNameChars format = true -> format <> "" ->
  cleanSegment (name ++ "." ++ format) = true.
Proof.
  intros Hname Hformat Hne. unfold cleanSegment.
  assert (Hslash : occurs "/" (name ++ "." ++ format) = false).
  { rewrite !occurs_append.
    rewrite (allNameChars_occurs "/" name), (allNameChars_occurs "/" format)
      by (reflexivity || assumption).
    reflexivity. }
  rewrite Hslash.
  destruct name as [|n name].
  - destruct format as [|f format]; [congruence|].
    cbn [allNameChars] in Hformat. apply andb_true_iff in Hformat.
    destruct Hformat as [Hf _].
    cbn [append String.eqb]. rewrite Ascii.eqb_refl.
    destruct (Ascii.eqb_spec f ".") as [-> | _]; [discriminate Hf|].
    reflexivity.
  - cbn [allNameChars] in Hname. apply andb_true_iff in Hname.
    destruct Hname as [Hn _].
    cbn [append String.eqb].
    destruct (Ascii.eqb_spec n ".") as [-> | _]; [discriminate Hn|].
    reflexivity.
Qed.

Lemma concat_snoc (segs : list string) (file : string) :
  segs <> [] ->
  String.concat "/" (segs ++ [file]) = String.concat "/" segs ++ "/" ++ file.
Proof.
  induction segs as [|seg segs IH]; [congruence|]. intros _.
  destruct segs as [|seg' segs]; [reflexivity|].
  change (String.concat "/" ((seg :: seg' :: segs) ++ [file]))
    with (seg ++ "/" ++ String.concat "/" ((seg' :: segs) ++ [file])).
  change (String.concat "/" (seg :: seg' :: segs))
    with (seg ++ "/" ++ String.concat "/" (seg' :: segs)).
  rewrite IH by discriminate.
  rewrite !append_assoc3. reflexivity.
Qed.

(** With a format made of letters, digits and underscores, as [json] and
    [html], every report is a file directly in the output directory,
    named after the sanitised URL: no URL leads out of the directory. *)
Theorem report_stays_in_output_dir {W : Type} (h : Host W) (values : Values)
  (url : string) :
  format values <> "" ->
  allNameChars (format values) = true ->
  outputPathOf h values url
  = (if String.eqb (outputDir h values) "/" then "" else outputDir h values)
    ++ "/" ++ sanitizedUrl url ++ "." ++ format values.
Proof.
  intros Hne Hformat. unfold outputPathOf.
  destruct (resolve_shape (cwd h) [outputDirOption values])
    as [segs [Hdir Hsegs]].
  fold (outputDir h values) in Hdir. rewrite Hdir.
  rewrite resolve_in_directory;
    [|exact Hsegs
     |apply report_name_clean;
      [apply sanitizedUrl_chars|exact Hformat|exact Hne]].
  destruct segs as [|seg segs]; [reflexivity|].
  inversion Hsegs as [|? ? Hseg _]; subst.
  destruct (cleanSegment_parts seg Hseg) as [Hseg_ne _].
  destruct seg as [|c seg]; [congruence|].
  assert (Hnot_root :
    String.eqb ("/" ++ String.concat "/" (String c seg :: segs)) "/" = false).
  { destruct segs; reflexivity. }
  rewrite Hnot_root, concat_snoc by discriminate.
  rewrite !append_assoc3. reflexivity.
Qed.

Lemma report_stays_in_output_dir_witness :
  format Example.values <> ""
  /\ allNameChars (format Example.values) = true
  /\ outputPathOf Example.working Example.values "https://a.com/../../etc"
     = "/work/reports/a_com_______etc.json".
Proof.
  split; [discriminate|]. split; [reflexivity|].
  rewrite (report_stays_in_output_dir Example.working Example.values
             "https://a.com/../../etc" ltac:(discriminate) eq_refl).
  reflexivity.
Defined.

(** The name of a report has at most 100 code units, all of them
    letters, digits or underscores: it holds no slash and no dot. *)
Theorem report_name_is_safe (url : string) :
  (String.length (sanitizedUrl url) <= 100)%nat
  /\ allNameChars (sanitizedUrl url) = true
  /\ occurs "/" (sanitizedUrl url) = false
  /\ occurs "." (sanitizedUrl url) = false.
Proof.
  split; [apply sanitizedUrl_length|].
  split; [apply sanitizedUrl_chars|].
  split; apply allNameChars_occurs;
    try reflexivity; apply sanitizedUrl_chars.
Qed.

End ReportPath.

(** ** How a run can end *)

Section RunEnds.

Context {W : Type}.
Variable h : Host W.
Variable values : Values.

(** The batch never throws and never exits: when it completes, it
    completes normally, whatever the chunk size. *)
Lemma chunkLoop_normal (urls : list string) (chunkSize : Z)
  (wsEndpoint : string) :
  forall (fuel : nat) (i : Z) (results : list AuditResult) (s s' : State W) c,
    chunkLoop h values fuel urls chunkSize wsEndpoint i results s
    = Some (c, s') ->
    exists final, c = Normal final.
Proof.
  induction fuel as [|fuel IH]; intros i results s s' c Hrun;
    [discriminate Hrun|].
  destruct (Z.lt_ge_cases i (Z.of_nat (List.length urls))) as [Hin|Hout].
  - destruct (chunkLoop_iteration h values fuel urls chunkSize wsEndpoint i
                results s Hin) as [rs [t [w [_ [_ [_ [_ Hstep]]]]]]].
    rewrite Hstep in Hrun. exact (IH _ _ _ _ _ Hrun).
  - rewrite chunkLoop_step in Hrun.
    destruct (Z.ltb_spec i (Z.of_nat (List.length urls))) as [Hin|_]; [lia|].
    unfold ret in Hrun. injection Hrun as <- _. eexists. reflexivity.
Qed.

Lemma acquire_ends (s s' : State W) c :
  acquire h values s = Some (c, s') ->
  (exists b, c = Normal b) \/ (exists m, c = Throw m) \/ c = Exit 1.
Proof.
  unfold acquire.
  destruct (given (chromeEndpoint values)) as [endpoint|].
  - unfold bind, call, setBrowser, ret.
    destruct (connect h endpoint (world s)) as [[b|m] w]; intros Heq;
      injection Heq as <- _; eauto.
  - unfold bind, isLocalChromeAvailable, readWorld.
    destruct (find _ _) as [chromePath|].
    + unfold bind, writeWorld, call, setBrowser, ret. simpl.
      destruct (launch h chromePath _) as [[b|m] w]; intros Heq;
        injection Heq as <- _; eauto.
    + unfold exit. intros Heq. injection Heq as <- _. auto.
Qed.

Lemma tryBlock_ends (fuel : nat) (urls : list string) (s s' : State W) c :
  tryBlock h values fuel urls s = Some (c, s') ->
  c = Normal tt \/ (exists m, c = Throw m) \/ c = Exit 1.
Proof.
  unfold tryBlock. unfold bind at 1.
  destruct (acquire h values s) as [[ca s1]|] eqn:Hacq; [|discriminate].
  destruct (acquire_ends s s1 ca Hacq) as [[b ->] | [[m ->] | ->]].
  - unfold bind at 1. unfold call at 1.
    destruct (version h b (world s1)) as [[v|m] w2].
    + cbv zeta. unfold bind at 1. unfold processUrlsInChunks.
      destruct (chunkLoop _ _ _ _ _ _ _ _ _) as [[cl s3]|] eqn:Hloop;
        [|discriminate].
      destruct (chunkLoop_normal _ _ _ _ _ _ _ _ _ Hloop) as [final ->].
      unfold bind, closeBrowser, call, emit.
      destruct (close h b (world s3)) as [[[]|m] w4]; intros Heq;
        injection Heq as <- _; eauto.
    + intros Heq. injection Heq as <- _. eauto.
  - intros Heq. injection Heq as <- _. eauto.
  - intros Heq. injection Heq as <- _. eauto.
Qed.

Lemma finallyBlock_normal (s : State W) :
  exists s', finallyBlock h s = Some (Normal tt, s').
Proof.
  unfold finallyBlock, bind, getBrowser.
  destruct (browser s) as [b|]; [|eexists; reflexivity].
  unfold tryCatch, closeBrowser, call, emit.
  destruct (close h b (world s)) as [[[]|m] w]; eexists; reflexivity.
Qed.

(** A run never ends with an exception that nobody caught: when it
    ends, it has completed normally or the process has exited with
    code 1. *)
Theorem run_completes_or_exits_with_1 (fuel : nat) (urls : list string)
  (s s' : State W) c :
  runLighthouse h values fuel urls s = Some (c, s') ->
  c = Normal tt \/ c = Exit 1.
Proof.
  unfold runLighthouse, tryCatchFinally, tryCatch.
  destruct (tryBlock h values fuel urls s) as [[ct s1]|] eqn:Htry;
    [|discriminate].
  destruct (tryBlock_ends fuel urls s s1 ct Htry) as [-> | [[m ->] | ->]].
  - unfold andFinally. destruct (finallyBlock_normal s1) as [s2 ->].
    intros Heq. injection Heq as <- _. left. reflexivity.
  - unfold catchBlock, bind, emit, exit, andFinally.
    intros Heq. injection Heq as <- _. right. reflexivity.
  - unfold andFinally. intros Heq. injection Heq as <- _. right. reflexivity.
Qed.

End RunEnds.

Lemma run_completes_or_exits_with_1_witness :
  exists c s',
    runLighthouse Example.closeFailing Example.values 2 ["https://a.com"]
                  (initial [])
    = Some (c, s')
    /\ (c = Normal tt \/ c = Exit 1).
Proof.
  eexists; eexists. split; [reflexivity|].
  eapply (run_completes_or_exits_with_1 Example.closeFailing Example.values 2
            ["https://a.com"] (initial [])).
  reflexivity.
Defined.

(** ** The single-URL script *)

Section SingleScript.

Context {W : Type}.
Variable h : Single.Host W.
Variable values : Single.Values.

Lemma beforeLastSlash_none (file : string) :
  occurs "/" file = false -> Single.beforeLastSlash file = None.
Proof.
  induction file as [|c file IH]; [reflexivity|].
  cbn [occurs Single.beforeLastSlash]. intros H.
  apply orb_false_iff in H. destruct H as [Hc Hfile].
  rewrite (IH Hfile), Ascii.eqb_sym, Hc. reflexivity.
Qed.

(** The directory of a path is what stands before its last slash. *)
Theorem directoryOf_joined (dir file : string) :
  occurs "/" file = false ->
  Single.directoryOf (dir ++ "/" ++ file) = dir.
Proof.
  intros Hfile. unfold Single.directoryOf.
  assert (H : Single.beforeLastSlash (dir ++ "/" ++ file) = Some dir).
  { induction dir as [|c dir IH].
    - cbn [append Single.beforeLastSlash].
      rewrite (beforeLastSlash_none file Hfile), Ascii.eqb_refl. reflexivity.
    - cbn [append Single.beforeLastSlash]. cbn [append] in IH.
      rewrite IH. reflexivity. }
  rewrite H. reflexivity.
Qed.

(** The step that should create the directory of the report does
    nothing: the test is made on a promise, so [mkdir] is never called
    and the state is left as it was. *)
Theorem directory_is_never_created (s : State W) :
  Single.ensureDirectory h values s = Some (Normal tt, s).
Proof.
  unfold Single.ensureDirectory, tryCatch.
  destruct (given (Some (Single.outputDir h values))) as [dir|];
    reflexivity.
Qed.

(** When the auditor fails, the process exits with the exit code of the
    auditor, and the browser session is not closed. *)
Theorem single_failure_exits_with_auditor_code (target : string)
  (s : State W) (b v : string) (result : SpawnResult) (w1 w2 w3 w4 : W) :
  Single.connect h Single.endpoint (world s) = (Returned b, w1) ->
  Single.version h b w1 = (Returned v, w2) ->
  Single.newPage h b w2 = (Returned tt, w3) ->
  Single.spawnSync h (Single.lighthouseCmd h values target) b w3
  = (Returned result, w4) ->
  exitCode result <> 0 ->
  Single.runLighthouse h values target s
  = Some (Exit (exitCode result),
          {| world := w4; browser := browser s;
             trace := trace s
                      ++ [ EvConnect Single.endpoint; EvVersion;
                           EvSpawn (Single.lighthouseCmd h values target) ] |}).
Proof.
  intros Hconnect Hversion Hpage Hspawn Hcode.
  unfold Single.runLighthouse, tryCatch, bind, call, Single.callQuiet, exit.
  rewrite Hconnect. simpl. rewrite Hversion. simpl. rewrite Hpage. simpl.
  rewrite Hspawn. simpl.
  destruct (Z.eqb_spec (exitCode result) 0); [contradiction|].
  simpl. rewrite <- !app_assoc. reflexivity.
Qed.

(** When the auditor exits with 0 and the session closes, the run
    completes normally after exactly one call of [close], whether or not
    the report exists. *)
Theorem single_success_closes_once (target : string)
  (s : State W) (b v : string) (result : SpawnResult) (w1 w2 w3 w4 w5 : W) :
  Single.connect h Single.endpoint (world s) = (Returned b, w1) ->
  Single.version h b w1 = (Returned v, w2) ->
  Single.newPage h b w2 = (Returned tt, w3) ->
  Single.spawnSync h (Single.lighthouseCmd h values target) b w3
  = (Returned result, w4) ->
  exitCode result = 0 ->
  Single.close h b w4 = (Returned tt, w5) ->
  Single.runLighthouse h values target s
  = Some (Normal tt,
          {| world := w5; browser := browser s;
             trace := trace s
                      ++ [ EvConnect Single.endpoint; EvVersion;
                           EvSpawn (Single.lighthouseCmd h values target);
                           EvClose ] |}).
Proof.
  intros Hconnect Hversion Hpage Hspawn Hcode Hclose.
  unfold Single.runLighthouse, tryCatch, bind, call, Single.callQuiet,
    Single.bunFileExists, readWorld, ret.
  rewrite Hconnect. simpl. rewrite Hversion. simpl. rewrite Hpage. simpl.
  rewrite Hspawn. simpl. rewrite Hcode. simpl. rewrite Hclose. simpl.
  rewrite <- !app_assoc. reflexivity.
Qed.

(** The run always ends, and never with an exception that nobody
    caught: it completes normally or the process exits. *)
Theorem single_run_ends (target : string) (s : State W) :
  exists c s',
    Single.runLighthouse h values target s = Some (c, s')
    /\ (c = Normal tt \/ exists code, c = Exit code).
Proof.
  unfold Single.runLighthouse, tryCatch, bind, call, Single.callQuiet,
    Single.bunFileExists, readWorld, ret, exit.
  destruct (Single.connect h Single.endpoint (world s)) as [[b|m] w1]; simpl;
    [|eauto 6].
  destruct (Single.version h b w1) as [[v|m] w2]; simpl; [|eauto 6].
  destruct (Single.newPage h b w2) as [[[]|m] w3]; simpl; [|eauto 6].
  destruct (Single.spawnSync h _ b w3) as [[result|m] w4]; simpl; [|eauto 6].
  destruct (exitCode result =? 0); simpl; [|eauto 6].
  destruct (Single.close h b w4) as [[[]|m] w5]; simpl; eauto 6.
Qed.

End SingleScript.

Lemma directoryOf_joined_witness :
  occurs "/" "report.json" = false
  /\ Single.directoryOf "/work/out/report.json" = "/work/out".
Proof.
  split; [reflexivity|].
  exact (directoryOf_joined "/work/out" "report.json" eq_refl).
Defined.

Lemma single_failure_exits_with_auditor_code_witness :
  exitCode {| exitCode := 2; stderr := "" |} <> 0
  /\ exists s',
       Single.runLighthouse (SingleExample.host 2) SingleExample.values
                            "https://a.com" (initial [])
       = Some (Exit 2, s')
       /\ closeCalls (trace s') = 0%nat.
Proof.
  split; [discriminate|]. eexists. split.
  - apply (single_failure_exits_with_auditor_code (SingleExample.host 2)
             SingleExample.values "https://a.com" (initial [])
             Single.endpoint "Chrome/120" {| exitCode := 2; stderr := "" |}
             [] [] [] []); try reflexivity.
    discriminate.
  - reflexivity.
Defined.

Lemma single_success_closes_once_witness :
  Single.fileExists (SingleExample.host 0) "/work/out/report.json" [] = false
  /\ exists s',
       Single.runLighthouse (SingleExample.host 0) SingleExample.values
                            "https://a.com" (initial [])
       = Some (Normal tt, s')
       /\ closeCalls (trace s') = 1%nat.
Proof.
  split; [reflexivity|]. eexists. split.
  - apply (single_success_closes_once (SingleExample.host 0)
             SingleExample.values "https://a.com" (initial [])
             Single.endpoint "Chrome/120" {| exitCode := 0; stderr := "" |}
             [] [] [] [] []); reflexivity.
  - reflexivity.
Defined.

(** ** Which targets share an output path *)

Section PathCollisions.

Lemma length_append3 (a b : string) :
  String.length (a ++ b) = (String.length a + String.length b)%nat.
Proof.
  induction a as [|c a IH]; [reflexivity|]. cbn [append String.length].
  rewrite IH. reflexivity.
Qed.

Lemma append_cancel_l (p a b : string) : p ++ a = p ++ b -> a = b.
Proof.
  induction p as [|c p IH]; cbn [append]; [exact (fun H => H)|].
  intros H. injection H as H. exact (IH H).
Qed.

Lemma append_cancel_r (s : string) :
  forall a b, a ++ s = b ++ s -> a = b.
Proof.
  induction a as [|c a IH]; intros b H.
  - apply (f_equal String.length) in H. rewrite !length_append3 in H.
    destruct b; [reflexivity|]. cbn [String.length] in H. lia.
  - destruct b as [|d b].
    + apply (f_equal String.length) in H. rewrite !length_append3 in H.
      cbn [String.length] in H. lia.
    + cbn [append] in H. injection H as -> H. rewrite (IH b H). reflexivity.
Qed.

Lemma substring0_get (n : nat) :
  forall (s : string) (i : nat),
    String.get i (substring0 n s)
    = if (i <? n)%nat then String.get i s else None.
Proof.
  induction n as [|n IH]; intros s i.
  - destruct s; reflexivity.
  - destruct s as [|c s]; cbn [substring0 String.get].
    + destruct (i <? S n)%nat; reflexivity.
    + destruct i as [|i]; [reflexivity|]. rewrite IH. reflexivity.
Qed.

Lemma substring0_exact_length (n : nat) :
  forall s : string,
    String.length (substring0 n s) = Nat.min n (String.length s).
Proof.
  induction n as [|n IH]; intros s; [reflexivity|].
  destruct s as [|c s]; [reflexivity|].
  cbn [substring0 String.length]. rewrite IH. reflexivity.
Qed.

Lemma replaceNonAlnum_get (s : string) :
  forall i : nat,
    String.get i (replaceNonAlnum s)
    = option_map (fun c => if isAlnum c then c else "_"%char) (String.get i s).
Proof.
  induction s as [|c s IH]; intros i; [reflexivity|].
  destruct i as [|i]; [reflexivity|]. cbn [replaceNonAlnum String.get].
  apply IH.
Qed.

Lemma replaceNonAlnum_length (s : string) :
  String.length (replaceNonAlnum s) = String.length s.
Proof.
  induction s as [|c s IH]; [reflexivity|].
  cbn [replaceNonAlnum String.length]. rewrite IH. reflexivity.
Qed.

(** The path of a report with a clean name, for a format made of
    letters, digits and underscores. *)
Lemma report_path_shape {W : Type} (h : Host W) (values : Values)
  (name : string) :
  allNameChars name = true ->
  format values <> "" ->
  allNameChars (format values) = true ->
  Path.resolve (cwd h) [outputDir h values; name ++ "." ++ format values]
  = (if String.eqb (outputDir h values) "/" then "" else outputDir h values)
    ++ "/" ++ name ++ "." ++ format values.
Proof.
  intros Hname Hne Hformat.
  destruct (resolve_shape (cwd h) [outputDirOption values])
    as [segs [Hdir Hsegs]].
  fold (outputDir h values) in Hdir. rewrite Hdir.
  rewrite resolve_in_directory
    by (try exact Hsegs; apply report_name_clean; assumption).
  destruct segs as [|[|c seg] segs]; [reflexivity| |].
  - inversion Hsegs as [|? ? Hseg _]. discriminate Hseg.
  - assert (Hnot_root :
      String.eqb ("/" ++ String.concat "/" (String c seg :: segs)) "/"
      = false) by (destruct segs; reflexivity).
    rewrite Hnot_root, concat_snoc by discriminate.
    rewrite !append_assoc3. reflexivity.
Qed.

(** C5, amended. The output path is derived from the target by
    stripping the scheme, replacing every code unit that is not a letter
    or a digit by [_], keeping the first 100 code units and appending a
    dot and the format.  The same URL, and any two URLs with the same
    sanitised name, get the same path; so the derivation is not
    injective: for every [rest] the distinct targets [http://rest] and
    [https://rest] share their path.  For a format made of letters,
    digits and underscores the path is the output directory, a slash,
    the name, a dot and the format, and two targets share a path only
    when their sanitised names are equal. *)
Theorem output_path_collisions {W : Type} (h : Host W) (values : Values) :
  (forall rest,
     stripScheme ("http://" ++ rest) = rest
     /\ stripScheme ("https://" ++ rest) = rest)
  /\ (forall u,
        String.length (sanitizedUrl u)
        = Nat.min 100 (String.length (stripScheme u))
        /\ forall i,
             String.get i (sanitizedUrl u)
             = if (i <? 100)%nat
               then option_map (fun c => if isAlnum c then c else "_"%char)
                               (String.get i (stripScheme u))
               else None)
  /\ (forall u v,
        u = v \/ sanitizedUrl u = sanitizedUrl v ->
        outputPathOf h values u = outputPathOf h values v)
  /\ (forall rest,
        "http://" ++ rest <> "https://" ++ rest
        /\ hasScheme ("http://" ++ rest) = true
        /\ hasScheme ("https://" ++ rest) = true
        /\ outputPathOf h values ("http://" ++ rest)
           = outputPathOf h values ("https://" ++ rest))
  /\ (format values <> "" ->
      allNameChars (format values) = true ->
      (forall u,
         outputPathOf h values u
         = (if String.eqb (outputDir h values) "/" then ""
            else outputDir h values)
           ++ "/" ++ sanitizedUrl u ++ "." ++ format values)
      /\ forall u v,
           outputPathOf h values u = outputPathOf h values v ->
           sanitizedUrl u = sanitizedUrl v).
Proof.
  split; [|split; [|split; [|split]]].
  - intros rest. split; reflexivity.
  - intros u. unfold sanitizedUrl. split.
    + rewrite substring0_exact_length, replaceNonAlnum_length. reflexivity.
    + intros i. rewrite substring0_get, replaceNonAlnum_get. reflexivity.
  - intros u v [-> | Hname]; [reflexivity|].
    unfold outputPathOf. rewrite Hname. reflexivity.
  - intros rest. split; [|split; [|split]]; try reflexivity.
    cbn [append]. intros Heq. discriminate Heq.
  - intros Hne Hformat.
    assert (Hshape : forall u,
      outputPathOf h values u
      = (if String.eqb (outputDir h values) "/" then ""
         else outputDir h values)
        ++ "/" ++ sanitizedUrl u ++ "." ++ format values).
    { intros u. unfold outputPathOf.
      apply report_path_shape; [apply sanitizedUrl_chars|exact Hne|exact Hformat]. }
    split; [exact Hshape|].
    intros u v Heq. rewrite !Hshape in Heq.
    apply append_cancel_l in Heq. apply append_cancel_l in Heq.
    exact (append_cancel_r _ _ _ Heq).
Qed.

Lemma output_path_collisions_witness :
  format Example.values <> ""
  /\ allNameChars (format Example.values) = true
  /\ outputPathOf Example.working Example.values "https://a.com/x?y=1"
     = "/work/reports/a_com_x_y_1.json"
  /\ (outputPathOf Example.working Example.values "http://a.com/x"
      = outputPathOf Example.working Example.values "https://a.com/x"
      /\ "http://a.com/x" <> "https://a.com/x")
  /\ (outputPathOf Example.working Example.values "https://a.com"
      = outputPathOf Example.working Example.values "https://b.com" ->
      sanitizedUrl "https://a.com" = sanitizedUrl "https://b.com").
Proof.
  assert (Hne : format Example.values <> "") by discriminate.
  assert (Hformat : allNameChars (format Example.values) = true)
    by reflexivity.
  destruct (output_path_collisions Example.working Example.values)
    as [_ [_ [_ [Hcollide Hexact]]]].
  destruct (Hexact Hne Hformat) as [Hshape Hinj].
  split; [exact Hne|]. split; [exact Hformat|]. split; [|split].
  - rewrite Hshape. reflexivity.
  - destruct (Hcollide "a.com/x") as [Hdiff [_ [_ Hsame]]].
    split; [exact Hsame|exact Hdiff].
  - apply Hinj.
Defined.

End PathCollisions.
